(** * generate_mapping.py: police station -> areas mapping builder

    Shallow embedding of [build_mapping] from [src/generate_mapping.py].
    The workbook is read by openpyxl ([sh.iter_rows(min_row=2,
    values_only=True)]); we start from the resulting [data_rows], one list of
    cell values per spreadsheet row.  Strings are modelled as Rocq strings of
    8-bit characters read as Latin-1 code points: [str.strip] and
    [str.lower] are written out for that range. *)

From Stdlib Require Import String Ascii List Bool ZArith Lia.
Import ListNotations.
Local Open Scope string_scope.
Local Open Scope list_scope.

(** ** Python string primitives *)

(** [str.isspace] on code points 0..255. *)
Definition is_space (c : ascii) : bool :=
  let n := nat_of_ascii c in
  (Nat.leb 9 n && Nat.leb n 13) || (Nat.leb 28 n && Nat.leb n 32)
  || Nat.eqb n 133 || Nat.eqb n 160.

Fixpoint lstrip_l (l : list ascii) : list ascii :=
  match l with
  | [] => []
  | c :: r => if is_space c then lstrip_l r else l
  end.

Definition strip_l (l : list ascii) : list ascii :=
  rev (lstrip_l (rev (lstrip_l l))).

(** [s.strip()] *)
Definition strip (s : string) : string :=
  string_of_list_ascii (strip_l (list_ascii_of_string s)).

(** [str.lower] on code points 0..255: A-Z and the Latin-1 capitals
    U+00C0..U+00DE except U+00D7. *)
Definition lower_char (c : ascii) : ascii :=
  let n := nat_of_ascii c in
  if (Nat.leb 65 n && Nat.leb n 90)
     || (Nat.leb 192 n && Nat.leb n 222 && negb (Nat.eqb n 215))
  then ascii_of_nat (n + 32) else c.

(** [s.lower()] *)
Definition lower (s : string) : string :=
  string_of_list_ascii (map lower_char (list_ascii_of_string s)).

(** Truthiness of a [str]: non-empty. *)
Definition truthy_str (s : string) : bool := negb (String.eqb s EmptyString).

(** Truthiness of [current_ps : str | None]. *)
Definition truthy_opt (o : option string) : bool :=
  match o with Some s => truthy_str s | None => false end.

(** [x in l] for a list (or set) of strings. *)
Definition mem (x : string) (l : list string) : bool :=
  existsb (String.eqb x) l.

(** ** Cells, rows, and the insertion-ordered dict *)

(** A cell value as returned by openpyxl with [values_only=True]. *)
Inductive cell : Type :=
| CNone
| CStr (s : string)
| CNum (z : Z)
| COther.

Abbreviation row := (list cell).

(** [dict[str, list[str]]], in insertion order. *)
Definition mapping_t := list (string * list string).

Fixpoint lookup (k : string) (m : mapping_t) : option (list string) :=
  match m with
  | [] => None
  | (k', v) :: m' => if String.eqb k k' then Some v else lookup k m'
  end.

(** [m.setdefault(k, d)] (result value unused): a new key goes last. *)
Definition setdefault (k : string) (d : list string) (m : mapping_t) : mapping_t :=
  match lookup k m with
  | Some _ => m
  | None => m ++ [(k, d)]
  end.

(** [m[k].append(x)] on a key known to be present. *)
Fixpoint append_item (k x : string) (m : mapping_t) : mapping_t :=
  match m with
  | [] => []
  | (k', v) :: m' =>
      if String.eqb k k' then (k', v ++ [x]) :: m'
      else (k', v) :: append_item k x m'
  end.

(** ** build_mapping *)

(** The loop state: [mapping] and [current_ps]. *)
Record state : Type := mkState {
  mapping : mapping_t;
  current_ps : option string
}.

Definition init : state := mkState [] None.

(** Lines 28-32: a new PS name updates [current_ps]. *)
Definition update_station (st : state) (ps_name : cell) : state :=
  match ps_name with
  | CStr s =>
      if truthy_str (strip s) then
        let ps_name_clean := strip s in
        mkState (setdefault ps_name_clean [] (mapping st)) (Some ps_name_clean)
      else st
  | _ => st
  end.

(** Lines 34-49; [None] is the [KeyError] of [mapping[current_ps]]. *)
Definition record_area (st : state) (area : cell) : option state :=
  if negb (truthy_opt (current_ps st)) then Some st else
  match current_ps st with
  | None => Some st
  | Some cur =>
      match area with
      | CStr a =>
          let area_clean := strip a in
          if negb (truthy_str area_clean) then Some st else
          match lookup cur (mapping st) with
          | None => None
          | Some areas =>
              let existing_norm := map (fun x => lower (strip x)) areas in
              let norm := lower area_clean in
              if mem norm existing_norm then Some st
              else Some (mkState (append_item cur area_clean (mapping st))
                                 (current_ps st))
          end
      | _ => Some st
      end
  end.

(** One iteration of the [for] loop; [None] is the [ValueError] raised by
    [s_no, ps_s_no, sub_div, ps_name, area = row] on a row whose length is
    not five. *)
Definition step (st : state) (r : row) : option state :=
  match r with
  | [s_no; ps_s_no; sub_div; ps_name; area] =>
      record_area (update_station st ps_name) area
  | _ => None
  end.

Fixpoint loop (st : state) (rows : list row) : option state :=
  match rows with
  | [] => Some st
  | r :: rs =>
      match step st r with
      | Some st' => loop st' rs
      | None => None
      end
  end.

(** [for row in data_rows[1:]]: the header row is skipped. *)
Definition run_rows (data_rows : list row) : option state :=
  loop init (skipn 1 data_rows).

(** [build_mapping]; [None] when an exception escapes. *)
Definition build_mapping (data_rows : list row) : option mapping_t :=
  option_map mapping (run_rows data_rows).

Example build_mapping_example :
  build_mapping
    [[CStr "S.No"; CStr "PS S.No"; CStr "Sub-Division"; CStr "PS"; CStr "Area"];
     [CNum 1; CNum 1; CStr "D"; CStr " A PS "; CStr "Village1"];
     [CNum 2; CNum 2; CNone; CNone; CStr "village1 "];
     [CNum 3; CNum 3; CNone; CNone; CStr "  "];
     [CNum 4; CNum 1; CNone; CStr "B PS"; CNone]]
  = Some [("A PS", ["Village1"]); ("B PS", [])].
Proof. reflexivity. Qed.

(** ** Serialisation: [write_mapping_js]

    [json.dump(mapping, f, ensure_ascii=False, separators=(",", ":"))]:
    only the quote, the backslash and the control characters are escaped. *)

Definition quote_char : ascii := ascii_of_nat 34.
Definition backslash : ascii := ascii_of_nat 92.

Definition hex_digit (n : nat) : ascii :=
  if Nat.ltb n 10 then ascii_of_nat (48 + n) else ascii_of_nat (87 + n).

Definition json_char (c : ascii) : list ascii :=
  let n := nat_of_ascii c in
  if Nat.eqb n 34 then [backslash; quote_char]
  else if Nat.eqb n 92 then [backslash; backslash]
  else if Nat.eqb n 10 then [backslash; "n"%char]
  else if Nat.eqb n 13 then [backslash; "r"%char]
  else if Nat.eqb n 9 then [backslash; "t"%char]
  else if Nat.eqb n 8 then [backslash; "b"%char]
  else if Nat.eqb n 12 then [backslash; "f"%char]
  else if Nat.ltb n 32 then
    [backslash; "u"%char; "0"%char; "0"%char; hex_digit (n / 16); hex_digit (n mod 16)]
  else [c].

Definition json_string (s : string) : string :=
  string_of_list_ascii
    ((quote_char :: flat_map json_char (list_ascii_of_string s)) ++ [quote_char]).

Fixpoint join (sep : string) (l : list string) : string :=
  match l with
  | [] => EmptyString
  | [x] => x
  | x :: xs => (x ++ sep ++ join sep xs)%string
  end.

Definition json_list (l : list string) : string :=
  ("[" ++ join "," (map json_string l) ++ "]")%string.

Definition json_mapping (m : mapping_t) : string :=
  ("{" ++ join "," (map (fun '(k, v) => json_string k ++ ":" ++ json_list v)%string m)
   ++ "}")%string.

(** The text written to [mapping.js]. *)
Definition write_mapping_js (m : mapping_t) : string :=
  ("const policeStationAreas = " ++ json_mapping m ++ ";"
   ++ String (ascii_of_nat 10) EmptyString)%string.

Example write_mapping_js_example :
  write_mapping_js [("A PS", ["Village1"; String quote_char "y"]); ("B PS", [])]
  = string_of_list_ascii
      (list_ascii_of_string "const policeStationAreas = {"
       ++ [quote_char] ++ list_ascii_of_string "A PS" ++ [quote_char; ":"%char; "["%char; quote_char]
       ++ list_ascii_of_string "Village1" ++ [quote_char; ","%char; quote_char; backslash; quote_char; "y"%char; quote_char]
       ++ list_ascii_of_string "]," ++ [quote_char] ++ list_ascii_of_string "B PS" ++ [quote_char]
       ++ list_ascii_of_string ":[]};" ++ [ascii_of_nat 10]).
Proof. reflexivity. Qed.

(** ** Serialisation: [write_json] and the script's [__main__]

    [json.dumps(mapping, ensure_ascii=False, indent=2)]: with an indent,
    the item separator is "," and the key separator ": "; an empty list or
    dict is written "[]" or "{}"; otherwise each item goes on its own line,
    indented two spaces per level. *)

Definition newline : string := String (ascii_of_nat 10) EmptyString.

Fixpoint indent (level : nat) : string :=
  match level with
  | 0 => EmptyString
  | S l => ("  " ++ indent l)%string
  end.

Definition json_pretty_list (level : nat) (l : list string) : string :=
  match l with
  | [] => "[]"
  | _ => ("[" ++ newline ++ indent (S level)
          ++ join ("," ++ newline ++ indent (S level)) (map json_string l)
          ++ newline ++ indent level ++ "]")%string
  end.

Definition json_pretty (m : mapping_t) : string :=
  match m with
  | [] => "{}"
  | _ => ("{" ++ newline ++ indent 1
          ++ join ("," ++ newline ++ indent 1)
                  (map (fun '(k, v) => json_string k ++ ": " ++ json_pretty_list 1 v) m)
          ++ newline ++ "}")%string
  end.

(** The text [write_json] writes to [mapping.json]. *)
Definition write_json (m : mapping_t) : string := json_pretty m.

(** What the script does, in order. *)
Inductive effect : Type :=
| WriteFile (path contents : string)
(** the write of [path] was attempted and raised: the file may be absent,
    emptied or partly written *)
| WriteFailed (path : string)
| PrintOut (text : string)
| PrintFailed.

(** What the script meets outside: the rows openpyxl reads from the first
    sheet ([None] when the workbook is missing or unreadable and
    [load_workbook] raises), whether writing each output file succeeds, and
    whether printing to stdout succeeds. *)
Record env : Type := mkEnv {
  workbook : option (list row);
  write_ok : string -> bool;
  print_ok : bool
}.

(** [__main__]: the effects performed in order, and whether the run ended
    normally ([false] when a step raised, which stops the script). *)
Definition main_io (e : env) : list effect * bool :=
  match workbook e with
  | None => ([], false)
  | Some data_rows =>
      match build_mapping data_rows with
      | None => ([], false)
      | Some mapping =>
          if write_ok e "mapping.json" then
            if write_ok e "mapping.js" then
              if print_ok e then
                ([WriteFile "mapping.json" (write_json mapping);
                  WriteFile "mapping.js" (write_mapping_js mapping);
                  PrintOut (json_pretty mapping ++ newline)%string], true)
              else
                ([WriteFile "mapping.json" (write_json mapping);
                  WriteFile "mapping.js" (write_mapping_js mapping);
                  PrintFailed], false)
            else
              ([WriteFile "mapping.json" (write_json mapping);
                WriteFailed "mapping.js"], false)
          else ([WriteFailed "mapping.json"], false)
      end
  end.

(** A run of [__main__] in which the workbook reads as [data_rows] and both
    writes and the print succeed. *)
Definition main (data_rows : list row) : list effect * bool :=
  main_io (mkEnv (Some data_rows) (fun _ => true) true).

(** ** Reading the output back

    Tools to state what the written text means: [squeeze_out] drops the
    JSON whitespace outside string literals, and [parse_mapping_js] reads
    the [mapping.js] text back (a strict JSON reader for this shape). *)

Definition json_ws (c : ascii) : bool :=
  let n := nat_of_ascii c in
  Nat.eqb n 32 || Nat.eqb n 10 || Nat.eqb n 9 || Nat.eqb n 13.

Fixpoint squeeze_out (l : list ascii) : list ascii :=
  match l with
  | [] => []
  | c :: r =>
      if json_ws c then squeeze_out r
      else if Ascii.eqb c quote_char then c :: squeeze_in r
      else c :: squeeze_out r
  end
with squeeze_in (l : list ascii) : list ascii :=
  match l with
  | [] => []
  | c :: r =>
      if Ascii.eqb c backslash then
        match r with
        | [] => [c]
        | d :: r' => c :: d :: squeeze_in r'
        end
      else if Ascii.eqb c quote_char then c :: squeeze_out r
      else c :: squeeze_in r
  end.

Definition simple_escape (d : ascii) : option ascii :=
  let n := nat_of_ascii d in
  if Nat.eqb n 34 then Some quote_char
  else if Nat.eqb n 92 then Some backslash
  else if Nat.eqb n 47 then Some d
  else if Nat.eqb n 110 then Some (ascii_of_nat 10)
  else if Nat.eqb n 114 then Some (ascii_of_nat 13)
  else if Nat.eqb n 116 then Some (ascii_of_nat 9)
  else if Nat.eqb n 98 then Some (ascii_of_nat 8)
  else if Nat.eqb n 102 then Some (ascii_of_nat 12)
  else None.

Definition hex_val (c : ascii) : option nat :=
  let n := nat_of_ascii c in
  if Nat.leb 48 n && Nat.leb n 57 then Some (n - 48)
  else if Nat.leb 97 n && Nat.leb n 102 then Some (n - 87)
  else if Nat.leb 65 n && Nat.leb n 70 then Some (n - 55)
  else None.

Definition cons_fst (c : ascii) (o : option (list ascii * list ascii))
  : option (list ascii * list ascii) :=
  option_map (fun '(s, rest) => (c :: s, rest)) o.

(** The body of a string literal, up to and without its closing quote. *)
Fixpoint read_chars (l : list ascii) : option (list ascii * list ascii) :=
  match l with
  | [] => None
  | c :: r =>
      if Ascii.eqb c quote_char then Some ([], r)
      else if Ascii.eqb c backslash then
        match r with
        | [] => None
        | d :: r' =>
            if Ascii.eqb d "u"%char then
              match r' with
              | h1 :: h2 :: h3 :: h4 :: r'' =>
                  match hex_val h1, hex_val h2, hex_val h3, hex_val h4 with
                  | Some a1, Some a2, Some a3, Some a4 =>
                      let v := ((a1 * 16 + a2) * 16 + a3) * 16 + a4 in
                      if Nat.ltb v 256 then cons_fst (ascii_of_nat v) (read_chars r'')
                      else None
                  | _, _, _, _ => None
                  end
              | _ => None
              end
            else
              match simple_escape d with
              | Some e => cons_fst e (read_chars r')
              | None => None
              end
        end
      else if Nat.ltb (nat_of_ascii c) 32 then None
      else cons_fst c (read_chars r)
  end.

Definition expect (c : ascii) (l : list ascii) : option (list ascii) :=
  match l with
  | d :: r => if Ascii.eqb c d then Some r else None
  | [] => None
  end.

Definition read_string (l : list ascii) : option (string * list ascii) :=
  match expect quote_char l with
  | Some r => option_map (fun '(s, rest) => (string_of_list_ascii s, rest)) (read_chars r)
  | None => None
  end.

Fixpoint read_items (fuel : nat) (l : list ascii) : option (list string * list ascii) :=
  match fuel with
  | 0 => None
  | S f =>
      match read_string l with
      | None => None
      | Some (s, r) =>
          match r with
          | c :: r' =>
              if Ascii.eqb c ","%char then
                option_map (fun '(xs, rest) => (s :: xs, rest)) (read_items f r')
              else if Ascii.eqb c "]"%char then Some ([s], r')
              else None
          | [] => None
          end
      end
  end.

Definition read_list (fuel : nat) (l : list ascii) : option (list string * list ascii) :=
  match expect "["%char l with
  | Some (c :: r') => if Ascii.eqb c "]"%char then Some ([], r') else read_items fuel (c :: r')
  | _ => None
  end.

Fixpoint read_entries (lfuel fuel : nat) (l : list ascii) : option (mapping_t * list ascii) :=
  match fuel with
  | 0 => None
  | S f =>
      match read_string l with
      | None => None
      | Some (k, r) =>
          match expect ":"%char r with
          | None => None
          | Some r1 =>
              match read_list lfuel r1 with
              | None => None
              | Some (v, r2) =>
                  match r2 with
                  | c :: r' =>
                      if Ascii.eqb c ","%char then
                        option_map (fun '(es, rest) => ((k, v) :: es, rest))
                                   (read_entries lfuel f r')
                      else if Ascii.eqb c "}"%char then Some ([(k, v)], r')
                      else None
                  | [] => None
                  end
              end
          end
      end
  end.

Definition read_object (fuel : nat) (l : list ascii) : option (mapping_t * list ascii) :=
  match expect "{"%char l with
  | Some (c :: r') => if Ascii.eqb c "}"%char then Some ([], r') else read_entries fuel fuel (c :: r')
  | _ => None
  end.

Fixpoint strip_prefix (p l : list ascii) : option (list ascii) :=
  match p, l with
  | [], _ => Some l
  | x :: p', y :: l' => if Ascii.eqb x y then strip_prefix p' l' else None
  | _, _ => None
  end.

(** Reads a [mapping.js] text back into the mapping it assigns. *)
Definition parse_mapping_js (text : string) : option mapping_t :=
  let l := list_ascii_of_string text in
  match strip_prefix (list_ascii_of_string "const policeStationAreas = ") l with
  | None => None
  | Some r =>
      match read_object (List.length l) r with
      | Some (m, rest) =>
          if list_eq_dec ascii_dec rest [";"%char; ascii_of_nat 10] then Some m else None
      | None => None
      end
  end.

Example parse_mapping_js_example :
  parse_mapping_js (write_mapping_js [("A PS", ["Village1"; String quote_char "y"]); ("B", [])])
  = Some [("A PS", ["Village1"; String quote_char "y"]); ("B", [])].
Proof. reflexivity. Qed.

(** One [key: list] item of the compact dict text. *)
Definition json_entry (e : string * list string) : string :=
  let '(k, v) := e in (json_string k ++ ":" ++ json_list v)%string.

(** Text without a C0 control character (no code point below 32).  DEL and
    the characters from 128 up are not concerned. *)
Definition c0_free (l : list ascii) : Prop := Forall (fun c => 32 <= nat_of_ascii c) l.

(** ** The loop as a relation

    The same loop body written as a big-step relation, one constructor per
    branch of the Python code; used to state that a run is determined by its
    input rows. *)

Inductive station_rel : state -> cell -> state -> Prop :=
| SR_new st s :
    truthy_str (strip s) = true ->
    station_rel st (CStr s)
      (mkState (setdefault (strip s) [] (mapping st)) (Some (strip s)))
| SR_keep st ps :
    (forall s, ps = CStr s -> truthy_str (strip s) = false) ->
    station_rel st ps st.

Inductive area_rel : state -> cell -> option state -> Prop :=
| AR_no_current st area :
    truthy_opt (current_ps st) = false -> area_rel st area (Some st)
| AR_not_str st cur area :
    current_ps st = Some cur -> truthy_str cur = true ->
    (forall a, area <> CStr a) -> area_rel st area (Some st)
| AR_blank st cur a :
    current_ps st = Some cur -> truthy_str cur = true ->
    truthy_str (strip a) = false -> area_rel st (CStr a) (Some st)
| AR_key_error st cur a :
    current_ps st = Some cur -> truthy_str cur = true ->
    truthy_str (strip a) = true -> lookup cur (mapping st) = None ->
    area_rel st (CStr a) None
| AR_dup st cur a areas :
    current_ps st = Some cur -> truthy_str cur = true ->
    truthy_str (strip a) = true -> lookup cur (mapping st) = Some areas ->
    In (lower (strip a)) (map (fun x => lower (strip x)) areas) ->
    area_rel st (CStr a) (Some st)
| AR_append st cur a areas :
    current_ps st = Some cur -> truthy_str cur = true ->
    truthy_str (strip a) = true -> lookup cur (mapping st) = Some areas ->
    ~ In (lower (strip a)) (map (fun x => lower (strip x)) areas) ->
    area_rel st (CStr a)
      (Some (mkState (append_item cur (strip a) (mapping st)) (current_ps st))).

Inductive row_rel : state -> row -> option state -> Prop :=
| RR_unpack_error st r :
    List.length r <> 5 -> row_rel st r None
| RR_body st st1 o s_no ps_s_no sub_div ps_name area :
    station_rel st ps_name st1 -> area_rel st1 area o ->
    row_rel st [s_no; ps_s_no; sub_div; ps_name; area] o.

Inductive loop_rel : state -> list row -> option state -> Prop :=
| LR_done st : loop_rel st [] (Some st)
| LR_raise st r rs : row_rel st r None -> loop_rel st (r :: rs) None
| LR_next st st' r rs o :
    row_rel st r (Some st') -> loop_rel st' rs o -> loop_rel st (r :: rs) o.

(** A run of [build_mapping] on [data_rows] ending in [res]. *)
Definition build_mapping_rel (data_rows : list row) (res : option mapping_t) : Prop :=
  exists o, loop_rel init (skipn 1 data_rows) o /\ res = option_map mapping o.

(** ** Reference descriptions of the result

    These follow the spec's wording (first-occurrence order, attribution to
    the most recent station) and are compared with the code below. *)

(** The trimmed station name a (five-cell) row carries, if any. *)
Definition row_station (r : row) : option string :=
  match r with
  | [_; _; _; CStr s; _] => if truthy_str (strip s) then Some (strip s) else None
  | _ => None
  end.

(** The trimmed area name a (five-cell) row carries, if any. *)
Definition row_area (r : row) : option string :=
  match r with
  | [_; _; _; _; CStr a] => if truthy_str (strip a) then Some (strip a) else None
  | _ => None
  end.

Definition five_cells (r : row) : Prop := List.length r = 5.

Fixpoint station_names (rows : list row) : list string :=
  match rows with
  | [] => []
  | r :: rs =>
      match row_station r with
      | Some k => k :: station_names rs
      | None => station_names rs
      end
  end.

(** The most recent station after [rows], starting from [cur]. *)
Fixpoint last_station (cur : option string) (rows : list row) : option string :=
  match rows with
  | [] => cur
  | r :: rs =>
      last_station (match row_station r with Some k => Some k | None => cur end) rs
  end.

(** (station, area) pairs, each area attributed to the most recent station. *)
Fixpoint attributed (cur : option string) (rows : list row) : list (string * string) :=
  match rows with
  | [] => []
  | r :: rs =>
      let cur' := match row_station r with Some k => Some k | None => cur end in
      match cur', row_area r with
      | Some k, Some a => (k, a) :: attributed cur' rs
      | _, _ => attributed cur' rs
      end
  end.

Definition areas_for (k : string) (rows : list row) : list string :=
  map snd (filter (fun p => String.eqb (fst p) k) (attributed None rows)).

(** The areas that [rows] attribute to [k] when [k] is the current station
    at their start. *)
Definition areas_from (k : string) (rows : list row) : list string :=
  map snd (filter (fun p => String.eqb (fst p) k) (attributed (Some k) rows)).

(** Keep the first element of each class of [f]-equal elements. *)
Fixpoint first_occ_by (f : string -> string) (seen : list string) (l : list string)
  : list string :=
  match l with
  | [] => []
  | x :: xs =>
      if mem (f x) seen then first_occ_by f seen xs
      else x :: first_occ_by f (f x :: seen) xs
  end.

(** The deduplication key of an area: trimmed and lowercased. *)
Definition norm (a : string) : string := lower (strip a).

Definition spec_keys (rows : list row) : list string :=
  first_occ_by (fun x => x) [] (station_names rows).

Definition spec_areas (rows : list row) (k : string) : list string :=
  first_occ_by norm [] (areas_for k rows).

Definition spec_mapping (rows : list row) : mapping_t :=
  map (fun k => (k, spec_areas rows k)) (spec_keys rows).

Example spec_mapping_example :
  spec_mapping
    [[CNum 1; CNum 1; CStr "D"; CStr " A PS "; CStr "Village1"];
     [CNum 2; CNum 2; CNone; CNone; CStr "village1 "];
     [CNum 4; CNum 1; CNone; CStr "B PS"; CNone];
     [CNum 4; CNum 1; CNone; CStr "A PS"; CStr "V2"]]
  = [("A PS", ["Village1"; "V2"]); ("B PS", [])].
Proof. reflexivity. Qed.

(** * Lemmas *)

(** ** strip *)

Lemma lstrip_l_idem l : lstrip_l (lstrip_l l) = lstrip_l l.
Proof.
  induction l as [|c r IH]; simpl; [reflexivity|].
  destruct (is_space c) eqn:E; [exact IH|simpl; rewrite E; reflexivity].
Qed.

Lemma lstrip_l_shape l :
  lstrip_l l = [] \/ exists c r, lstrip_l l = c :: r /\ is_space c = false.
Proof.
  induction l as [|c r IH]; simpl; [left; reflexivity|].
  destruct (is_space c) eqn:E; [exact IH|right; eauto].
Qed.

Lemma lstrip_l_snoc l c :
  is_space c = false -> lstrip_l (l ++ [c]) = lstrip_l l ++ [c].
Proof.
  intros Hc; induction l as [|d r IH]; simpl.
  - rewrite Hc; reflexivity.
  - destruct (is_space d); [exact IH|reflexivity].
Qed.

Lemma strip_l_idem l : strip_l (strip_l l) = strip_l l.
Proof.
  unfold strip_l.
  assert (Hv : lstrip_l (rev (lstrip_l (rev (lstrip_l l))))
               = rev (lstrip_l (rev (lstrip_l l)))).
  { destruct (lstrip_l_shape l) as [E | (c & r & E & Hc)]; rewrite E.
    - reflexivity.
    - simpl. rewrite (lstrip_l_snoc _ _ Hc), rev_app_distr. simpl.
      rewrite Hc. reflexivity. }
  rewrite Hv, rev_involutive, lstrip_l_idem. reflexivity.
Qed.

Lemma strip_idem s : strip (strip s) = strip s.
Proof.
  unfold strip. rewrite list_ascii_of_string_of_list_ascii, strip_l_idem.
  reflexivity.
Qed.

Lemma norm_strip a : norm (strip a) = lower (strip a).
Proof. unfold norm. rewrite strip_idem. reflexivity. Qed.

Lemma truthy_str_true s : truthy_str s = true <-> s <> EmptyString.
Proof.
  unfold truthy_str. rewrite negb_true_iff, String.eqb_neq. reflexivity.
Qed.

Lemma truthy_opt_some s : truthy_opt (Some s) = truthy_str s.
Proof. reflexivity. Qed.

(** ** mem *)

Lemma mem_In x l : mem x l = true <-> In x l.
Proof.
  unfold mem. rewrite existsb_exists. split.
  - intros (y & Hy & E). apply String.eqb_eq in E. subst. exact Hy.
  - intros H. exists x. split; [exact H|apply String.eqb_refl].
Qed.

Lemma mem_false x l : mem x l = false <-> ~ In x l.
Proof.
  rewrite <- mem_In. destruct (mem x l); split; intros H; congruence.
Qed.

Lemma mem_swap x a s t : mem x ((a :: s) ++ t) = mem x (s ++ a :: t).
Proof.
  unfold mem. simpl. rewrite !existsb_app. simpl.
  destruct (String.eqb x a), (existsb (String.eqb x) s),
           (existsb (String.eqb x) t); reflexivity.
Qed.

(** ** first_occ_by *)

Section FirstOcc.
Variable f : string -> string.

Lemma first_occ_by_snoc seen l x :
  first_occ_by f seen (l ++ [x])
  = first_occ_by f seen l
    ++ (if mem (f x) (seen ++ map f (first_occ_by f seen l)) then [] else [x]).
Proof.
  revert seen; induction l as [|y l IH]; intros seen; simpl.
  - rewrite app_nil_r. reflexivity.
  - destruct (mem (f y) seen) eqn:Ey; [apply IH|].
    simpl. rewrite IH, mem_swap. reflexivity.
Qed.

Lemma first_occ_by_nodup seen l :
  NoDup (map f (first_occ_by f seen l))
  /\ (forall y, In y (first_occ_by f seen l) -> ~ In (f y) seen).
Proof.
  revert seen; induction l as [|x l IH]; intros seen; simpl.
  - split; [constructor|intros y []].
  - destruct (mem (f x) seen) eqn:Ex; [apply IH|].
    destruct (IH (f x :: seen)) as [H1 H2]. split.
    + simpl. constructor; [|exact H1].
      intros Hin. apply in_map_iff in Hin as (y & Ey & Hy).
      apply (H2 y Hy). rewrite Ey. left. reflexivity.
    + intros y [<- | Hy].
      * apply mem_false. exact Ex.
      * intros Hs. apply (H2 y Hy). right. exact Hs.
Qed.

End FirstOcc.

Lemma first_occ_by_id_In seen l x :
  In x (first_occ_by (fun y => y) seen l) <-> In x l /\ ~ In x seen.
Proof.
  revert seen; induction l as [|y l IH]; intros seen; simpl.
  - tauto.
  - destruct (mem y seen) eqn:Ey.
    + rewrite IH. apply mem_In in Ey. split.
      * tauto.
      * intros [[<- | H] Hn]; [contradiction|tauto].
    + simpl. rewrite IH. apply mem_false in Ey. simpl.
      destruct (string_dec y x) as [<- | Hne]; [tauto|].
      split; [intros [H | [H1 H2]]; [congruence|tauto] | ].
      intros [[H | H] Hn]; [congruence|right; split; [exact H|]].
      intros [H' | H']; [congruence|contradiction].
Qed.

Lemma first_occ_by_id_nodup l : NoDup (first_occ_by (fun y => y) [] l).
Proof.
  destruct (first_occ_by_nodup (fun y => y) [] l) as [H _].
  rewrite map_id in H. exact H.
Qed.

(** ** The dict as an association list built from a key list *)

Section Tabulate.
Variable F : string -> list string.

Definition tabulate (keys : list string) : mapping_t := map (fun k => (k, F k)) keys.

Lemma lookup_tabulate k keys :
  lookup k (tabulate keys) = if mem k keys then Some (F k) else None.
Proof.
  induction keys as [|k' keys IH]; simpl; [reflexivity|].
  unfold mem in *. simpl. destruct (String.eqb k k') eqn:E; simpl.
  - apply String.eqb_eq in E. subst. reflexivity.
  - exact IH.
Qed.

Lemma setdefault_tabulate k keys :
  (mem k keys = false -> F k = []) ->
  setdefault k [] (tabulate keys)
  = tabulate (keys ++ (if mem k keys then [] else [k])).
Proof.
  intros Hk. unfold setdefault. rewrite lookup_tabulate.
  destruct (mem k keys).
  - rewrite app_nil_r. reflexivity.
  - unfold tabulate. rewrite map_app. simpl. rewrite Hk; reflexivity.
Qed.

End Tabulate.

Lemma append_item_tabulate F k x keys :
  NoDup keys ->
  append_item k x (tabulate F keys)
  = tabulate (fun k' => if String.eqb k k' then F k' ++ [x] else F k') keys.
Proof.
  induction keys as [|k' keys IH]; intros Hnd; simpl; [reflexivity|].
  inversion Hnd as [|? ? Hnin Hnd']; subst.
  destruct (String.eqb k k') eqn:E.
  - apply String.eqb_eq in E. subst. f_equal.
    apply map_ext_in. intros k'' Hin.
    destruct (String.eqb k' k'') eqn:E'; [|reflexivity].
    apply String.eqb_eq in E'. subst. contradiction.
  - f_equal. apply IH. exact Hnd'.
Qed.

Lemma tabulate_ext F G keys :
  (forall k, In k keys -> F k = G k) -> tabulate F keys = tabulate G keys.
Proof.
  intros H. unfold tabulate. apply map_ext_in. intros k Hk. rewrite H; auto.
Qed.

(** ** The reference descriptions over concatenated rows *)

Lemma station_names_app l1 l2 :
  station_names (l1 ++ l2) = station_names l1 ++ station_names l2.
Proof.
  induction l1 as [|r l1 IH]; simpl; [reflexivity|].
  destruct (row_station r); simpl; rewrite IH; reflexivity.
Qed.

Lemma last_station_app c l1 l2 :
  last_station c (l1 ++ l2) = last_station (last_station c l1) l2.
Proof. revert c; induction l1 as [|r l1 IH]; intros c; simpl; auto. Qed.

Lemma attributed_app c l1 l2 :
  attributed c (l1 ++ l2) = attributed c l1 ++ attributed (last_station c l1) l2.
Proof.
  revert c; induction l1 as [|r l1 IH]; intros c; simpl; [reflexivity|].
  destruct (row_station r), (row_area r), c; simpl; rewrite IH; reflexivity.
Qed.

Lemma row_station_clean r k :
  row_station r = Some k -> truthy_str k = true /\ strip k = k.
Proof.
  unfold row_station. intros H.
  destruct r as [|c1 [|c2 [|c3 [|[|s| |] [|ar [|]]]]]]; try discriminate.
  destruct (truthy_str (strip s)) eqn:E; [|discriminate].
  injection H as <-. split; [exact E|apply strip_idem].
Qed.

Lemma row_area_clean r a :
  row_area r = Some a -> truthy_str a = true /\ strip a = a.
Proof.
  unfold row_area. intros H.
  destruct r as [|c1 [|c2 [|c3 [|ps [|[|s| |] [|]]]]]]; try discriminate.
  destruct (truthy_str (strip s)) eqn:E; [|discriminate].
  injection H as <-. split; [exact E|apply strip_idem].
Qed.

Lemma last_station_source c rows k :
  last_station c rows = Some k -> c = Some k \/ In k (station_names rows).
Proof.
  revert c; induction rows as [|r rows IH]; intros c H; simpl in *; [auto|].
  destruct (row_station r) as [k'|] eqn:E; apply IH in H as [H|H]; auto.
  - injection H as <-. right. left. reflexivity.
  - right. right. exact H.
Qed.

Lemma last_station_clean rows k :
  last_station None rows = Some k -> truthy_str k = true /\ strip k = k.
Proof.
  intros H. apply last_station_source in H as [H|H]; [discriminate|].
  revert H; induction rows as [|r rows IH]; simpl; [intros []|].
  destruct (row_station r) as [k'|] eqn:E; [|exact IH].
  intros [<-|H]; [exact (row_station_clean _ _ E)|exact (IH H)].
Qed.

Lemma attributed_source c rows k a :
  In (k, a) (attributed c rows) -> c = Some k \/ In k (station_names rows).
Proof.
  revert c; induction rows as [|r rows IH]; intros c H; simpl in *; [contradiction|].
  destruct (row_station r) as [k'|] eqn:E.
  - destruct (row_area r).
    + destruct H as [H|H]; [injection H as <- _; right; left; reflexivity|].
      apply IH in H as [H|H]; [injection H as <-|]; right; [left|right]; auto.
    + apply IH in H as [H|H]; [injection H as <-|]; right; [left|right]; auto.
  - destruct c as [c|]; [destruct (row_area r)|].
    + destruct H as [H|H]; [injection H as <- _; left; reflexivity|].
      apply IH in H as [H|H]; auto.
    + apply IH in H as [H|H]; auto.
    + apply IH in H as [H|H]; auto.
Qed.

Lemma areas_for_unseen k rows :
  ~ In k (station_names rows) -> areas_for k rows = [].
Proof.
  intros Hk. unfold areas_for.
  destruct (filter _ _) as [|[k' a] l] eqn:E; [reflexivity|].
  exfalso. assert (Hin : In (k', a) (filter (fun p => String.eqb (fst p) k)
                                        (attributed None rows))).
  { rewrite E. left. reflexivity. }
  apply filter_In in Hin as [Hin Heq]. simpl in Heq.
  apply String.eqb_eq in Heq. subst.
  apply attributed_source in Hin as [H|H]; [discriminate|contradiction].
Qed.

Lemma spec_keys_snoc pre r :
  spec_keys (pre ++ [r])
  = spec_keys pre
    ++ (match row_station r with
        | Some k => if mem k (spec_keys pre) then [] else [k]
        | None => []
        end).
Proof.
  unfold spec_keys. rewrite station_names_app. simpl.
  destruct (row_station r) as [k|].
  - rewrite first_occ_by_snoc, map_id. reflexivity.
  - rewrite !app_nil_r. reflexivity.
Qed.

Lemma spec_keys_In k rows : In k (spec_keys rows) <-> In k (station_names rows).
Proof.
  unfold spec_keys. rewrite first_occ_by_id_In. simpl. tauto.
Qed.

Lemma spec_keys_nodup rows : NoDup (spec_keys rows).
Proof. apply first_occ_by_id_nodup. Qed.

Lemma areas_for_snoc k pre r :
  areas_for k (pre ++ [r])
  = areas_for k pre
    ++ (match last_station None (pre ++ [r]), row_area r with
        | Some c, Some a => if String.eqb c k then [a] else []
        | _, _ => []
        end).
Proof.
  unfold areas_for. rewrite attributed_app, filter_app, map_app, last_station_app.
  f_equal. simpl.
  destruct (row_station r), (last_station None pre), (row_area r); simpl;
    try reflexivity; destruct (String.eqb _ k); reflexivity.
Qed.

Lemma spec_areas_snoc k pre r :
  spec_areas (pre ++ [r]) k
  = spec_areas pre k
    ++ (match last_station None (pre ++ [r]), row_area r with
        | Some c, Some a =>
            if String.eqb c k && negb (mem (norm a) (map norm (spec_areas pre k)))
            then [a] else []
        | _, _ => []
        end).
Proof.
  unfold spec_areas. rewrite areas_for_snoc.
  destruct (last_station None (pre ++ [r])) as [c|], (row_area r) as [a|];
    try (rewrite !app_nil_r; reflexivity).
  destruct (String.eqb c k); simpl.
  - rewrite first_occ_by_snoc. simpl. destruct (mem _ _); reflexivity.
  - rewrite !app_nil_r. reflexivity.
Qed.

(** The loop state the reference description predicts after [rows]. *)
Definition spec_state (rows : list row) : state :=
  mkState (spec_mapping rows) (last_station None rows).

Lemma spec_areas_unseen pre k :
  mem k (spec_keys pre) = false -> spec_areas pre k = [].
Proof.
  intros H. apply mem_false in H. rewrite spec_keys_In in H.
  unfold spec_areas. rewrite (areas_for_unseen _ _ H). reflexivity.
Qed.

Lemma current_in_keys rows c :
  last_station None rows = Some c -> mem c (spec_keys rows) = true.
Proof.
  intros H. apply last_station_source in H as [H|H]; [discriminate|].
  apply mem_In, spec_keys_In. exact H.
Qed.

Lemma update_station_spec pre x1 x2 x3 ps ar :
  update_station (spec_state pre) ps
  = mkState (tabulate (spec_areas pre) (spec_keys (pre ++ [[x1; x2; x3; ps; ar]])))
            (last_station None (pre ++ [[x1; x2; x3; ps; ar]])).
Proof.
  rewrite spec_keys_snoc, last_station_app. unfold spec_state, update_station.
  destruct ps as [|s| |]; simpl; try (rewrite app_nil_r; reflexivity).
  destruct (truthy_str (strip s)); simpl; [|rewrite app_nil_r; reflexivity].
  change (spec_mapping pre) with (tabulate (spec_areas pre) (spec_keys pre)).
  rewrite setdefault_tabulate; [reflexivity|].
  apply spec_areas_unseen.
Qed.

Lemma step_spec pre r :
  five_cells r -> step (spec_state pre) r = Some (spec_state (pre ++ [r])).
Proof.
  unfold five_cells.
  destruct r as [|x1 [|x2 [|x3 [|ps [|ar [|]]]]]]; simpl; try discriminate.
  intros _. rewrite (update_station_spec pre x1 x2 x3 ps ar).
  unfold spec_state, record_area.
  change (spec_mapping (pre ++ [[x1; x2; x3; ps; ar]]))
    with (tabulate (spec_areas (pre ++ [[x1; x2; x3; ps; ar]]))
                   (spec_keys (pre ++ [[x1; x2; x3; ps; ar]]))).
  cbn [current_ps mapping].
  destruct (last_station None (pre ++ [[x1; x2; x3; ps; ar]])) as [c|] eqn:EC.
  - destruct (last_station_clean _ _ EC) as [Hc _].
    pose proof (current_in_keys _ _ EC) as Hin.
    rewrite truthy_opt_some, Hc. cbn [negb].
    destruct ar as [|a| |]; try rewrite EC;
      try (f_equal; f_equal; apply tabulate_ext; intros k _;
           rewrite spec_areas_snoc, EC; simpl; rewrite app_nil_r; reflexivity).
    destruct (truthy_str (strip a)) eqn:Ea; simpl.
    2:{ f_equal; f_equal; apply tabulate_ext; intros k _.
        rewrite spec_areas_snoc, EC; simpl; rewrite Ea, app_nil_r; reflexivity. }
    rewrite lookup_tabulate, Hin.
    change (map (fun x => lower (strip x)) (spec_areas pre c))
      with (map norm (spec_areas pre c)).
    rewrite <- norm_strip.
    destruct (mem (norm (strip a)) (map norm (spec_areas pre c))) eqn:Em.
    + f_equal; f_equal; apply tabulate_ext; intros k _.
      rewrite spec_areas_snoc, EC; simpl; rewrite Ea.
      destruct (String.eqb c k) eqn:Ek; simpl; [|rewrite app_nil_r; reflexivity].
      apply String.eqb_eq in Ek; subst. rewrite Em. simpl. rewrite app_nil_r.
      reflexivity.
    + rewrite append_item_tabulate by apply spec_keys_nodup.
      f_equal; f_equal; apply tabulate_ext; intros k _.
      rewrite spec_areas_snoc, EC; simpl; rewrite Ea.
      destruct (String.eqb c k) eqn:Ek; simpl; [|rewrite app_nil_r; reflexivity].
      apply String.eqb_eq in Ek; subst. rewrite Em. reflexivity.
  - cbn [truthy_opt negb].
    f_equal; f_equal; apply tabulate_ext; intros k _.
    rewrite spec_areas_snoc, EC; simpl; rewrite app_nil_r; reflexivity.
Qed.

(** ** The loop against the reference description *)

Lemma loop_app st l1 l2 :
  loop st (l1 ++ l2) = match loop st l1 with Some st' => loop st' l2 | None => None end.
Proof.
  revert st; induction l1 as [|r l1 IH]; intros st; simpl; [reflexivity|].
  destruct (step st r); [apply IH|reflexivity].
Qed.

Lemma step_five st r st' : step st r = Some st' -> five_cells r.
Proof.
  unfold five_cells.
  destruct r as [|x1 [|x2 [|x3 [|ps [|ar [|]]]]]]; simpl; try discriminate.
  reflexivity.
Qed.

Lemma loop_five st rows st' : loop st rows = Some st' -> Forall five_cells rows.
Proof.
  revert st; induction rows as [|r rows IH]; intros st H; simpl in H; [constructor|].
  destruct (step st r) as [s|] eqn:E; [|discriminate].
  constructor; [exact (step_five _ _ _ E)|exact (IH _ H)].
Qed.

Lemma spec_state_nil : spec_state [] = init.
Proof. reflexivity. Qed.

Lemma loop_spec rows :
  Forall five_cells rows -> loop init rows = Some (spec_state rows).
Proof.
  induction rows as [|r rows IH] using rev_ind; intros H; [reflexivity|].
  apply Forall_app in H as [H1 H2]. inversion H2; subst.
  rewrite loop_app, IH by exact H1. simpl.
  rewrite step_spec by assumption. reflexivity.
Qed.

Definition all_five (rows : list row) : bool :=
  forallb (fun r => Nat.eqb (List.length r) 5) rows.

Lemma all_five_Forall rows : all_five rows = true <-> Forall five_cells rows.
Proof.
  unfold all_five, five_cells. rewrite forallb_forall, Forall_forall.
  split; intros H r Hr; specialize (H r Hr); [apply Nat.eqb_eq|apply Nat.eqb_eq]; exact H.
Qed.

Lemma loop_init_closed rows :
  loop init rows = if all_five rows then Some (spec_state rows) else None.
Proof.
  destruct (all_five rows) eqn:E.
  - apply loop_spec, all_five_Forall, E.
  - destruct (loop init rows) eqn:L; [|reflexivity].
    apply loop_five, all_five_Forall in L. congruence.
Qed.

(** [build_mapping] in closed form: it fails exactly when a data row does
    not have five cells, and otherwise returns the reference mapping. *)
Lemma build_mapping_closed data_rows :
  build_mapping data_rows
  = if all_five (skipn 1 data_rows) then Some (spec_mapping (skipn 1 data_rows))
    else None.
Proof.
  unfold build_mapping, run_rows. rewrite loop_init_closed.
  destruct (all_five _); reflexivity.
Qed.

Lemma run_rows_closed data_rows :
  run_rows data_rows
  = if all_five (skipn 1 data_rows) then Some (spec_state (skipn 1 data_rows))
    else None.
Proof. apply loop_init_closed. Qed.

Lemma build_mapping_some data_rows m :
  build_mapping data_rows = Some m ->
  Forall five_cells (skipn 1 data_rows) /\ m = spec_mapping (skipn 1 data_rows).
Proof.
  rewrite build_mapping_closed. destruct (all_five _) eqn:E; [|discriminate].
  intros H; injection H as <-. split; [apply all_five_Forall, E|reflexivity].
Qed.

Lemma run_rows_some data_rows st :
  run_rows data_rows = Some st ->
  Forall five_cells (skipn 1 data_rows) /\ st = spec_state (skipn 1 data_rows).
Proof.
  rewrite run_rows_closed. destruct (all_five _) eqn:E; [|discriminate].
  intros H; injection H as <-. split; [apply all_five_Forall, E|reflexivity].
Qed.

Lemma lookup_spec_mapping k rows :
  lookup k (spec_mapping rows)
  = if mem k (spec_keys rows) then Some (spec_areas rows k) else None.
Proof. apply (lookup_tabulate (spec_areas rows)). Qed.

Lemma spec_mapping_keys rows : map fst (spec_mapping rows) = spec_keys rows.
Proof.
  unfold spec_mapping. rewrite map_map. simpl. apply map_id.
Qed.

Lemma spec_keys_prefix l1 l2 : exists t, spec_keys (l1 ++ l2) = spec_keys l1 ++ t.
Proof.
  induction l2 as [|x l2 IH] using rev_ind.
  - exists []. rewrite !app_nil_r. reflexivity.
  - destruct IH as [t IH]. rewrite app_assoc, spec_keys_snoc, IH, <- app_assoc.
    eexists; reflexivity.
Qed.

Lemma first_occ_by_incl f seen l x : In x (first_occ_by f seen l) -> In x l.
Proof.
  revert seen; induction l as [|y l IH]; intros seen; simpl; [tauto|].
  destruct (mem (f y) seen); [intros H; right; exact (IH _ H)|].
  intros [H|H]; [left; exact H|right; exact (IH _ H)].
Qed.

Lemma attributed_area c rows k a :
  In (k, a) (attributed c rows) -> exists r, In r rows /\ row_area r = Some a.
Proof.
  revert c; induction rows as [|r rows IH]; intros c H; simpl in H; [contradiction|].
  destruct (match row_station r with Some k0 => Some k0 | None => c end),
           (row_area r) as [a'|] eqn:Ea;
    try (destruct (IH _ H) as (r' & ? & ?); exists r'; split; [right|]; assumption).
  destruct H as [H|H].
  - injection H as _ <-. exists r. split; [left; reflexivity|exact Ea].
  - destruct (IH _ H) as (r' & ? & ?). exists r'. split; [right|]; assumption.
Qed.

Lemma spec_mapping_clean rows k l :
  In (k, l) (spec_mapping rows) ->
  (truthy_str k = true /\ strip k = k)
  /\ Forall (fun a => truthy_str a = true /\ strip a = a) l.
Proof.
  unfold spec_mapping. intros H. apply in_map_iff in H as (k' & E & Hk).
  injection E as <- <-. split.
  - apply spec_keys_In in Hk. clear -Hk.
    induction rows as [|r rows IH]; simpl in Hk; [contradiction|].
    destruct (row_station r) as [k0|] eqn:E; [|exact (IH Hk)].
    destruct Hk as [<-|Hk]; [exact (row_station_clean _ _ E)|exact (IH Hk)].
  - apply Forall_forall. intros a Ha.
    apply first_occ_by_incl in Ha. unfold areas_for in Ha.
    apply in_map_iff in Ha as ([k'' a'] & <- & Ha).
    apply filter_In in Ha as [Ha _].
    destruct (attributed_area _ _ _ _ Ha) as (r & _ & Er).
    exact (row_area_clean _ _ Er).
Qed.

Lemma spec_areas_prefix pre l2 k :
  exists t,
    spec_areas (pre ++ l2) k = spec_areas pre k ++ t
    /\ Forall (fun a => ~ In (norm a) (map norm (spec_areas pre k))) t
    /\ Forall (fun a => In (k, a) (attributed (last_station None pre) l2)) t.
Proof.
  induction l2 as [|x l2 IH] using rev_ind.
  - exists []. rewrite app_nil_r. split; [rewrite app_nil_r; reflexivity|].
    split; constructor.
  - destruct IH as (t & E & H1 & H2).
    rewrite app_assoc, spec_areas_snoc, E.
    destruct (last_station None ((pre ++ l2) ++ [x])) as [c|] eqn:EC;
      [destruct (row_area x) as [a|] eqn:Ea|];
      try (exists t; rewrite !app_nil_r; split; [reflexivity|]; split; [exact H1|];
           eapply Forall_impl; [|exact H2]; simpl; intros a' Ha';
           rewrite attributed_app; apply in_or_app; left; exact Ha').
    destruct (String.eqb c k && negb (mem (norm a) (map norm (spec_areas pre k ++ t))))
      eqn:Eb.
    + apply andb_true_iff in Eb as [Ek Em]. apply String.eqb_eq in Ek. subst c.
      apply negb_true_iff, mem_false in Em.
      exists (t ++ [a]). rewrite app_assoc. split; [reflexivity|]. split.
      * apply Forall_app. split; [exact H1|]. constructor; [|constructor].
        intros Hin. apply Em. rewrite map_app. apply in_or_app. left. exact Hin.
      * apply Forall_app. split.
        -- eapply Forall_impl; [|exact H2]; simpl; intros a' Ha'.
           rewrite attributed_app; apply in_or_app; left; exact Ha'.
        -- constructor; [|constructor].
           rewrite attributed_app. apply in_or_app. right.
           rewrite ?last_station_app in EC. simpl in EC |- *.
           rewrite EC, Ea. left. reflexivity.
    + exists t. rewrite app_nil_r. split; [reflexivity|]. split; [exact H1|].
      eapply Forall_impl; [|exact H2]; simpl; intros a' Ha'.
      rewrite attributed_app; apply in_or_app; left; exact Ha'.
Qed.

(** [m2] extends [m1]: keys only added at the end, area lists only
    extended at their end. *)
Definition extends (m1 m2 : mapping_t) : Prop :=
  (exists t, map fst m2 = map fst m1 ++ t)
  /\ (forall k l1, lookup k m1 = Some l1 -> exists t, lookup k m2 = Some (l1 ++ t)).

Lemma spec_mapping_extends l1 l2 : extends (spec_mapping l1) (spec_mapping (l1 ++ l2)).
Proof.
  split.
  - rewrite !spec_mapping_keys. apply spec_keys_prefix.
  - intros k a1. rewrite !lookup_spec_mapping.
    destruct (mem k (spec_keys l1)) eqn:Ek; [|discriminate].
    intros H; injection H as <-.
    destruct (spec_keys_prefix l1 l2) as [t Et].
    assert (Hk : mem k (spec_keys (l1 ++ l2)) = true).
    { rewrite Et. apply mem_In in Ek. apply mem_In, in_or_app. left. exact Ek. }
    rewrite Hk. destruct (spec_areas_prefix l1 l2 k) as (t' & E' & _).
    exists t'. rewrite E'. reflexivity.
Qed.

(** ** The relation and the function agree *)

Lemma station_rel_iff st ps st1 : station_rel st ps st1 <-> st1 = update_station st ps.
Proof.
  split.
  - intros H; inversion H as [? s Hs | ? ? Hk]; subst; unfold update_station.
    + rewrite Hs. reflexivity.
    + destruct ps as [|s| |]; try reflexivity. rewrite (Hk s eq_refl). reflexivity.
  - intros ->. unfold update_station. destruct ps as [|s| |];
      try (apply SR_keep; intros s' H; discriminate).
    destruct (truthy_str (strip s)) eqn:E.
    + apply SR_new. exact E.
    + apply SR_keep. intros s' H. injection H as <-. exact E.
Qed.

Lemma area_rel_iff st ar o : area_rel st ar o <-> o = record_area st ar.
Proof.
  split.
  - intros H.
    destruct H as [st ar Hn | st cur ar Hc Ht Hn | st cur a Hc Ht Ha
                  | st cur a Hc Ht Ha Hl | st cur a areas Hc Ht Ha Hl Hm
                  | st cur a areas Hc Ht Ha Hl Hm];
      unfold record_area; [rewrite Hn; reflexivity|..];
      rewrite Hc; cbn [truthy_opt]; rewrite Ht; cbn [negb].
    + destruct ar as [|a| |]; try reflexivity. exfalso. exact (Hn a eq_refl).
    + rewrite Ha. reflexivity.
    + rewrite Ha. cbn [negb]. rewrite Hl. reflexivity.
    + rewrite Ha. cbn [negb]. rewrite Hl. apply mem_In in Hm. rewrite Hm. reflexivity.
    + rewrite Ha. cbn [negb]. rewrite Hl. apply mem_false in Hm. rewrite Hm.
      reflexivity.
  - intros ->. unfold record_area.
    destruct (truthy_opt (current_ps st)) eqn:Et; simpl;
      [|apply AR_no_current; exact Et].
    destruct (current_ps st) as [cur|] eqn:Ec; [|discriminate].
    simpl in Et.
    destruct ar as [|a| |];
      try (eapply AR_not_str; [exact Ec|exact Et|intros a' H; discriminate]).
    destruct (truthy_str (strip a)) eqn:Ea; simpl;
      [|eapply AR_blank; [exact Ec|exact Et|exact Ea]].
    destruct (lookup cur (mapping st)) as [areas|] eqn:El;
      [|eapply AR_key_error; eassumption].
    destruct (mem (lower (strip a)) (map (fun x => lower (strip x)) areas)) eqn:Em.
    + eapply AR_dup; try eassumption. apply mem_In. exact Em.
    + rewrite <- Ec. eapply AR_append; try eassumption. apply mem_false. exact Em.
Qed.

Lemma row_rel_iff st r o : row_rel st r o <-> o = step st r.
Proof.
  split.
  - intros H; inversion H as [? ? Hl | ? st1 ? ? ? ? ? ? Hs Ha]; subst.
    + destruct r as [|x1 [|x2 [|x3 [|ps [|ar [|]]]]]]; try reflexivity.
      simpl in Hl. congruence.
    + apply station_rel_iff in Hs. apply area_rel_iff in Ha. subst. reflexivity.
  - intros ->.
    destruct r as [|x1 [|x2 [|x3 [|ps [|ar [|]]]]]];
      try (apply RR_unpack_error; simpl; discriminate).
    simpl. eapply RR_body.
    + apply station_rel_iff. reflexivity.
    + apply area_rel_iff. reflexivity.
Qed.

Lemma loop_rel_iff st rows o : loop_rel st rows o <-> o = loop st rows.
Proof.
  split.
  - intros H; induction H as [st|st r rs Hr|st st' r rs o Hr _ IH]; simpl.
    + reflexivity.
    + apply row_rel_iff in Hr. rewrite <- Hr. reflexivity.
    + apply row_rel_iff in Hr. rewrite <- Hr. exact IH.
  - intros ->. revert st; induction rows as [|r rows IH]; intros st; simpl.
    + constructor.
    + destruct (step st r) as [st'|] eqn:E.
      * eapply LR_next; [apply row_rel_iff; symmetry; exact E|apply IH].
      * apply LR_raise. apply row_rel_iff. symmetry. exact E.
Qed.

Lemma build_mapping_rel_complete data_rows :
  build_mapping_rel data_rows (build_mapping data_rows).
Proof.
  exists (run_rows data_rows). split; [|reflexivity].
  apply loop_rel_iff. reflexivity.
Qed.

(** ** Rows that carry no station name or no area *)

Lemma update_station_no_station st x1 x2 x3 ps ar :
  row_station [x1; x2; x3; ps; ar] = None -> update_station st ps = st.
Proof.
  unfold row_station, update_station. destruct ps as [|s| |]; try reflexivity.
  destruct (truthy_str (strip s)); [discriminate|reflexivity].
Qed.

Lemma update_station_mapping st x1 x2 x3 ps ar :
  mapping (update_station st ps)
  = match row_station [x1; x2; x3; ps; ar] with
    | Some k => setdefault k [] (mapping st)
    | None => mapping st
    end.
Proof.
  unfold row_station, update_station. destruct ps as [|s| |]; try reflexivity.
  destruct (truthy_str (strip s)); reflexivity.
Qed.

Lemma record_area_no_area st x1 x2 x3 ps ar :
  row_area [x1; x2; x3; ps; ar] = None -> record_area st ar = Some st.
Proof.
  unfold row_area, record_area. intros H.
  destruct (negb (truthy_opt (current_ps st))); [reflexivity|].
  destruct (current_ps st); [|reflexivity].
  destruct ar as [|a| |]; try reflexivity.
  destruct (truthy_str (strip a)); [discriminate|reflexivity].
Qed.

Lemma loop_init_no_station pre :
  Forall five_cells pre -> Forall (fun r => row_station r = None) pre ->
  loop init pre = Some init.
Proof.
  induction pre as [|r pre IH]; intros H5 Hs; [reflexivity|].
  inversion H5 as [|? ? Hr H5']; inversion Hs as [|? ? Hrs Hs']; subst.
  simpl. unfold five_cells in Hr.
  destruct r as [|x1 [|x2 [|x3 [|ps [|ar [|]]]]]]; try discriminate.
  simpl step. rewrite (update_station_no_station _ _ _ _ _ _ Hrs).
  unfold record_area at 1. simpl. apply IH; assumption.
Qed.

(** * The claims *)

(** C1: in the Mapping returned by build_mapping, no two entries of a
    station's area list are equal once trimmed and lowercased; and an area
    row (without a station name) whose trimmed lowercased area equals that of
    an area already recorded for the current station leaves the state
    unchanged. *)
Theorem build_mapping_areas_distinct (data_rows : list row) (st : state) :
  run_rows data_rows = Some st ->
  build_mapping data_rows = Some (mapping st)
  /\ (forall k l, In (k, l) (mapping st) -> NoDup (map norm l))
  /\ (forall r k l a,
        five_cells r -> row_station r = None -> row_area r = Some a ->
        current_ps st = Some k -> lookup k (mapping st) = Some l ->
        In (norm a) (map norm l) ->
        run_rows (data_rows ++ [r]) = Some st).
Proof.
  intros Hrun. pose proof Hrun as Hsp. apply run_rows_some in Hsp as [H5 ->].
  split; [unfold build_mapping; rewrite Hrun; reflexivity|]. split.
  - intros k l Hin. simpl in Hin. unfold spec_mapping in Hin.
    apply in_map_iff in Hin as (k' & E & _). injection E as <- <-.
    apply first_occ_by_nodup.
  - intros r k l a Hr Hs Ha Hc Hl Hn.
    destruct data_rows as [|h pre]; [discriminate|].
    unfold run_rows in *. simpl skipn in *.
    rewrite loop_app, Hrun. simpl.
    unfold five_cells in Hr.
    destruct r as [|x1 [|x2 [|x3 [|ps [|ar [|]]]]]]; try discriminate.
    simpl step. rewrite (update_station_no_station _ _ _ _ _ _ Hs).
    simpl in Hc. destruct (last_station_clean _ _ Hc) as [Hk _].
    unfold record_area. simpl current_ps. rewrite Hc. cbn [truthy_opt].
    rewrite Hk. cbn [negb].
    unfold row_area in Ha. destruct ar as [|a'| |]; try discriminate.
    destruct (truthy_str (strip a')) eqn:Ea; [|discriminate].
    injection Ha as <-. cbn [negb]. rewrite Hl.
    change (map (fun x => lower (strip x)) l) with (map norm l).
    rewrite <- norm_strip. apply mem_In in Hn. rewrite Hn. reflexivity.
Qed.

(** C2: the keys of the Mapping are the station names of the data rows in
    first-occurrence order, each area list holds the station's areas in
    first-occurrence order (up to trimming and case), and the Mapping built
    from any prefix of the rows is extended, never reordered, by the rest. *)
Theorem build_mapping_first_occurrence_order (data_rows : list row) (m : mapping_t) :
  build_mapping data_rows = Some m ->
  map fst m = first_occ_by (fun x => x) [] (station_names (skipn 1 data_rows))
  /\ (forall k l, lookup k m = Some l ->
        l = first_occ_by norm [] (areas_for k (skipn 1 data_rows)))
  /\ (forall n, exists m1, build_mapping (firstn n data_rows) = Some m1
                           /\ extends m1 m).
Proof.
  intros H. apply build_mapping_some in H as [H5 ->]. split; [|split].
  - apply spec_mapping_keys.
  - intros k l. rewrite lookup_spec_mapping.
    destruct (mem k _); [|discriminate]. intros E; injection E as <-. reflexivity.
  - intros n. set (R := skipn 1 data_rows) in *.
    exists (spec_mapping (firstn (n - 1) R)). split.
    + rewrite build_mapping_closed, skipn_firstn_comm. fold R.
      rewrite <- (firstn_skipn (n - 1) R) in H5.
      apply Forall_app in H5 as [H5 _]. apply all_five_Forall in H5.
      rewrite H5. reflexivity.
    + pose proof (spec_mapping_extends (firstn (n - 1) R) (skipn (n - 1) R)) as E.
      rewrite firstn_skipn in E. exact E.
Qed.

(** C3: the spec's example.  The first three cells of each row and the
    header row are arbitrary. *)
Theorem build_mapping_spec_example (h : row) (a1 a2 a3 b1 b2 b3 c1 c2 c3 : cell) :
  build_mapping
    [h;
     [a1; a2; a3; CStr "A PS"; CStr "Village1"];
     [b1; b2; b3; CNone; CStr "village1 "];
     [c1; c2; c3; CStr "B PS"; CStr "Village2"]]
  = Some [("A PS", ["Village1"]); ("B PS", ["Village2"])].
Proof. reflexivity. Qed.

(** C4: a data row whose station cell is a string that is non-empty once
    trimmed gives the trimmed name a key in the Mapping; it maps to the
    empty list when no area is attributed to it. *)
Theorem build_mapping_station_entry (data_rows : list row) (m : mapping_t)
    (x1 x2 x3 : cell) (s : string) (ar : cell) :
  build_mapping data_rows = Some m ->
  In [x1; x2; x3; CStr s; ar] (skipn 1 data_rows) ->
  strip s <> EmptyString ->
  exists l, lookup (strip s) m = Some l
            /\ (areas_for (strip s) (skipn 1 data_rows) = [] -> l = []).
Proof.
  intros H Hin Hs. apply build_mapping_some in H as [_ ->].
  rewrite lookup_spec_mapping.
  assert (Hk : In (strip s) (station_names (skipn 1 data_rows))).
  { clear -Hin Hs. induction (skipn 1 data_rows) as [|r rows IH];
      [contradiction|].
    destruct Hin as [->|Hin].
    - simpl. apply truthy_str_true in Hs. rewrite Hs. left. reflexivity.
    - simpl. destruct (row_station r); [right|]; exact (IH Hin). }
  apply spec_keys_In, mem_In in Hk. rewrite Hk.
  eexists; split; [reflexivity|]. intros E. unfold spec_areas. rewrite E.
  reflexivity.
Qed.

(** C5: five-cell data rows that come before any row with a station name
    contribute nothing: dropping them does not change the result. *)
Theorem build_mapping_leading_rows_ignored (h : row) (pre post : list row) :
  Forall five_cells pre -> Forall (fun r => row_station r = None) pre ->
  build_mapping (h :: pre ++ post) = build_mapping (h :: post).
Proof.
  intros H5 Hs. unfold build_mapping, run_rows. simpl skipn.
  rewrite loop_app, loop_init_no_station by assumption. reflexivity.
Qed.

(** C6: every key of the Mapping and every stored area is non-empty and
    equal to its own trimmed form. *)
Theorem build_mapping_clean_names (data_rows : list row) (m : mapping_t) :
  build_mapping data_rows = Some m ->
  Forall (fun '(k, l) => k <> EmptyString /\ strip k = k
                         /\ Forall (fun a => a <> EmptyString /\ strip a = a) l) m.
Proof.
  intros H. apply build_mapping_some in H as [_ ->].
  apply Forall_forall. intros [k l] Hin.
  destruct (spec_mapping_clean _ _ _ Hin) as [[Hk Hsk] Hl].
  split; [apply truthy_str_true; exact Hk|]. split; [exact Hsk|].
  eapply Forall_impl; [|exact Hl]. simpl. intros a [Ha Hsa].
  split; [apply truthy_str_true; exact Ha|exact Hsa].
Qed.

(** C7 (as stated): refuted.  A worksheet with a sixth column gives six-cell
    rows, and the five-name tuple unpacking raises [ValueError]. *)
Lemma build_mapping_six_columns_raises :
  build_mapping
    [[CStr "S.No"; CStr "PS S.No"; CStr "Sub-Division"; CStr "PS"; CStr "Area"; CNone];
     [CNum 1; CNum 1; CStr "D"; CStr "A PS"; CStr "Village1"; CNone]]
  = None.
Proof. reflexivity. Qed.

(** C7 (amended): build_mapping raises exactly when some data row does not
    have five cells; a five-cell row whose area cell is missing, non-text or
    blank leaves the Mapping built so far unchanged, except that a non-blank
    text station name in it still gets its (possibly empty) entry. *)
Theorem build_mapping_errors_and_skips :
  (forall data_rows : list row,
     build_mapping data_rows = None <-> ~ Forall five_cells (skipn 1 data_rows))
  /\ (forall (h r : row) (pre : list row) (m : mapping_t),
        five_cells r -> row_area r = None ->
        build_mapping (h :: pre) = Some m ->
        build_mapping (h :: pre ++ [r])
        = Some (match row_station r with
                | Some k => setdefault k [] m
                | None => m
                end)).
Proof.
  split.
  - intros data_rows. rewrite build_mapping_closed, <- all_five_Forall.
    destruct (all_five _); split; congruence.
  - intros h r pre m Hr Ha H.
    apply build_mapping_some in H as [H5 ->]. simpl skipn in H5.
    unfold build_mapping, run_rows. simpl skipn.
    rewrite loop_app, loop_spec by exact H5. simpl.
    unfold five_cells in Hr.
    destruct r as [|x1 [|x2 [|x3 [|ps [|ar [|]]]]]]; try discriminate.
    simpl step. rewrite (record_area_no_area _ _ _ _ _ _ Ha). simpl.
    rewrite (update_station_mapping _ x1 x2 x3 ps ar). reflexivity.
Qed.

(** C8: any two runs of build_mapping (as the big-step relation) on the same
    rows end in the same outcome, which is the function's result, and write
    the same [mapping.js] text. *)
Theorem build_mapping_deterministic (data_rows : list row) (o1 o2 : option mapping_t) :
  build_mapping_rel data_rows o1 -> build_mapping_rel data_rows o2 ->
  o1 = o2 /\ o1 = build_mapping data_rows
  /\ option_map write_mapping_js o1 = option_map write_mapping_js o2.
Proof.
  intros (p1 & L1 & ->) (p2 & L2 & ->).
  apply loop_rel_iff in L1, L2. subst.
  split; [reflexivity|]. split; reflexivity.
Qed.

Lemma mem_ext s1 s2 :
  (forall y, In y s1 <-> In y s2) -> forall y, mem y s1 = mem y s2.
Proof.
  intros H y. destruct (mem y s1) eqn:E1, (mem y s2) eqn:E2; try reflexivity.
  - apply mem_In, H, mem_In in E1. congruence.
  - apply mem_In, H, mem_In in E2. congruence.
Qed.

Lemma first_occ_by_seen_ext f s1 s2 l :
  (forall y, In y s1 <-> In y s2) -> first_occ_by f s1 l = first_occ_by f s2 l.
Proof.
  revert s1 s2; induction l as [|x l IH]; intros s1 s2 H; simpl; [reflexivity|].
  rewrite (mem_ext s1 s2 H). destruct (mem (f x) s2).
  - apply IH, H.
  - f_equal. apply IH. intros y. simpl. rewrite H. tauto.
Qed.

Lemma first_occ_by_app f seen l l' :
  first_occ_by f seen (l ++ l')
  = first_occ_by f seen l ++ first_occ_by f (rev (map f (first_occ_by f seen l)) ++ seen) l'.
Proof.
  revert seen; induction l as [|x l IH]; intros seen; simpl; [reflexivity|].
  destruct (mem (f x) seen); [apply IH|].
  simpl. rewrite IH, <- app_assoc. reflexivity.
Qed.

Lemma attributed_from_station c k r rows :
  row_station r = Some k -> attributed c (r :: rows) = attributed (Some k) (r :: rows).
Proof. intros H. simpl. rewrite H. reflexivity. Qed.

(** C9: a station name that recurs adds no key: the keys after the
    recurring row are those before it, the keys stay duplicate-free and the
    final keys extend those before it; the station's final area list extends
    the one recorded before by exactly the areas the recurring and later
    rows attribute to it, each kept at its first occurrence and only when
    its trimmed lowercased form is not already present. *)
Theorem build_mapping_recurring_station (h r : row) (pre post : list row)
    (k : string) (m : mapping_t) :
  row_station r = Some k -> In k (station_names pre) ->
  build_mapping (h :: pre ++ r :: post) = Some m ->
  exists m1 m2 l1 t keys_t,
    build_mapping (h :: pre) = Some m1
    /\ build_mapping (h :: pre ++ [r]) = Some m2
    /\ map fst m2 = map fst m1
    /\ map fst m = map fst m1 ++ keys_t
    /\ NoDup (map fst m)
    /\ lookup k m1 = Some l1
    /\ lookup k m = Some (l1 ++ t)
    /\ t = first_occ_by norm (map norm l1) (areas_from k (r :: post))
    /\ Forall (fun a => ~ In (norm a) (map norm l1)
                        /\ In (k, a) (attributed (Some k) (r :: post))) t.
Proof.
  intros Hr Hk H. apply build_mapping_some in H as [H5 ->]. simpl skipn in *.
  apply Forall_app in H5 as [Hpre Hrest]. inversion Hrest as [|? ? Hr5 Hpost]; subst.
  assert (Hpre' : Forall five_cells (pre ++ [r])).
  { apply Forall_app. split; [exact Hpre|constructor; [exact Hr5|constructor]]. }
  assert (Hmem : mem k (spec_keys pre) = true).
  { apply mem_In, spec_keys_In. exact Hk. }
  destruct (spec_keys_prefix pre (r :: post)) as [kt Ekt].
  destruct (spec_areas_prefix pre (r :: post) k) as (t & Et & Ht1 & Ht2).
  assert (Ht : t = first_occ_by norm (map norm (spec_areas pre k)) (areas_from k (r :: post))).
  { apply (app_inv_head (spec_areas pre k)). rewrite <- Et.
    unfold spec_areas at 1, areas_for.
    rewrite attributed_app, (attributed_from_station (last_station None pre) _ _ _ Hr),
      filter_app, map_app, first_occ_by_app.
    fold (areas_for k pre). fold (spec_areas pre k). f_equal.
    apply first_occ_by_seen_ext. intros y. rewrite app_nil_r, <- in_rev. tauto. }
  exists (spec_mapping pre), (spec_mapping (pre ++ [r])), (spec_areas pre k), t, kt.
  repeat split.
  - rewrite build_mapping_closed. simpl skipn.
    apply all_five_Forall in Hpre. rewrite Hpre. reflexivity.
  - rewrite build_mapping_closed. simpl skipn.
    apply all_five_Forall in Hpre'. rewrite Hpre'. reflexivity.
  - rewrite !spec_mapping_keys, spec_keys_snoc, Hr, Hmem, app_nil_r. reflexivity.
  - rewrite !spec_mapping_keys. exact Ekt.
  - rewrite spec_mapping_keys. apply spec_keys_nodup.
  - rewrite lookup_spec_mapping, Hmem. reflexivity.
  - rewrite lookup_spec_mapping, Ekt, <- Et.
    replace (mem k (spec_keys pre ++ kt)) with true; [reflexivity|].
    symmetry. apply mem_In in Hmem. apply mem_In, in_or_app. left. exact Hmem.
  - exact Ht.
  - apply Forall_forall. intros a Ha. split.
    + rewrite Forall_forall in Ht1. exact (Ht1 a Ha).
    + rewrite Forall_forall in Ht2. rewrite <- (attributed_from_station (last_station None pre) _ _ _ Hr).
      exact (Ht2 a Ha).
Qed.

(** C10: a station cell that is present but not text leaves the current
    station unchanged: the row behaves as a continuation row (as with an
    empty station cell), and its non-blank text area is then recorded (up to
    trimming and case) under the most recent station. *)
Theorem build_mapping_nontext_station (h : row) (pre post : list row)
    (x1 x2 x3 c ar : cell) :
  (forall s, c <> CStr s) ->
  build_mapping (h :: pre ++ [x1; x2; x3; c; ar] :: post)
  = build_mapping (h :: pre ++ [x1; x2; x3; CNone; ar] :: post)
  /\ (forall st, run_rows (h :: pre) = Some st ->
       exists st', run_rows (h :: pre ++ [[x1; x2; x3; c; ar]]) = Some st'
         /\ current_ps st' = current_ps st
         /\ (forall k a, current_ps st = Some k -> ar = CStr a ->
               strip a <> EmptyString ->
               exists l, lookup k (mapping st') = Some l
                         /\ In (norm (strip a)) (map norm l))).
Proof.
  intros Hc. split.
  - unfold build_mapping, run_rows. simpl skipn. rewrite !loop_app.
    destruct (loop init pre) as [s|]; [|reflexivity]. simpl.
    destruct c as [|s'| |]; try reflexivity. exfalso. exact (Hc s' eq_refl).
  - intros st Hst. apply run_rows_some in Hst as [H5 ->]. simpl skipn in H5.
    remember [x1; x2; x3; c; ar] as r eqn:Er.
    assert (Hs : row_station r = None).
    { rewrite Er. unfold row_station. destruct c as [|s'| |]; try reflexivity.
      exfalso. exact (Hc s' eq_refl). }
    assert (Hlast : last_station None (pre ++ [r]) = last_station None pre).
    { rewrite last_station_app. simpl. rewrite Hs. reflexivity. }
    exists (spec_state (pre ++ [r])). split; [|split].
    + unfold run_rows. simpl skipn. apply loop_spec.
      apply Forall_app. split; [exact H5|constructor; [rewrite Er; reflexivity|constructor]].
    + simpl. exact Hlast.
    + intros k a Hk Ha Hsa. simpl in Hk. simpl.
      rewrite lookup_spec_mapping.
      rewrite (current_in_keys (pre ++ [r]) k) by (rewrite Hlast; exact Hk).
      eexists; split; [reflexivity|].
      rewrite spec_areas_snoc, Hlast, Hk.
      assert (Hra : row_area r = Some (strip a)).
      { rewrite Er. unfold row_area. rewrite Ha. apply truthy_str_true in Hsa. rewrite Hsa.
        reflexivity. }
      rewrite Hra, String.eqb_refl. simpl.
      destruct (mem (norm (strip a)) (map norm (spec_areas pre k))) eqn:Em; simpl.
      * rewrite app_nil_r. apply mem_In. exact Em.
      * rewrite map_app. apply in_or_app. right. left. reflexivity.
Qed.

(** * Witnesses: the theorems' hypotheses hold on concrete rows *)

Definition sample_header : row :=
  [CStr "S.No"; CStr "PS S.No"; CStr "Sub-Division"; CStr "PS"; CStr "Area"].

Definition sample_rows : list row :=
  [sample_header;
   [CNum 1; CNum 1; CStr "D"; CStr " A PS "; CStr "Village1"];
   [CNum 2; CNum 2; CNone; CNone; CStr "village1 "];
   [CNum 3; CNum 1; CNone; CStr "B PS"; CNone];
   [CNum 4; CNum 1; CNone; CStr "A PS"; CStr "V2"]].

Definition sample_mapping : mapping_t :=
  [("A PS", ["Village1"; "V2"]); ("B PS", [])].

Definition sample_state : state := mkState sample_mapping (Some "A PS").

Lemma build_mapping_areas_distinct_witness :
  run_rows sample_rows = Some sample_state
  /\ NoDup (map norm ["Village1"; "V2"]).
Proof.
  assert (H : run_rows sample_rows = Some sample_state) by reflexivity.
  split; [exact H|].
  destruct (build_mapping_areas_distinct sample_rows sample_state H) as (_ & Hd & _).
  apply (Hd "A PS"). left. reflexivity.
Defined.

Lemma build_mapping_first_occurrence_order_witness :
  build_mapping sample_rows = Some sample_mapping
  /\ map fst sample_mapping
     = first_occ_by (fun x => x) [] (station_names (skipn 1 sample_rows)).
Proof.
  assert (H : build_mapping sample_rows = Some sample_mapping) by reflexivity.
  split; [exact H|].
  exact (proj1 (build_mapping_first_occurrence_order sample_rows sample_mapping H)).
Defined.

Lemma build_mapping_station_entry_witness :
  build_mapping sample_rows = Some sample_mapping
  /\ In [CNum 3; CNum 1; CNone; CStr "B PS"; CNone] (skipn 1 sample_rows)
  /\ strip "B PS" <> EmptyString
  /\ exists l, lookup (strip "B PS") sample_mapping = Some l
               /\ (areas_for (strip "B PS") (skipn 1 sample_rows) = [] -> l = []).
Proof.
  assert (H1 : build_mapping sample_rows = Some sample_mapping) by reflexivity.
  assert (H2 : In [CNum 3; CNum 1; CNone; CStr "B PS"; CNone] (skipn 1 sample_rows)).
  { simpl. right. right. left. reflexivity. }
  assert (H3 : strip "B PS" <> EmptyString) by (vm_compute; discriminate).
  split; [exact H1|]. split; [exact H2|]. split; [exact H3|].
  exact (build_mapping_station_entry sample_rows sample_mapping _ _ _ _ _ H1 H2 H3).
Defined.

Lemma build_mapping_leading_rows_ignored_witness :
  Forall five_cells [[CNum 0; CNum 0; CNone; CNone; CStr "orphan"]]
  /\ Forall (fun r => row_station r = None) [[CNum 0; CNum 0; CNone; CNone; CStr "orphan"]]
  /\ build_mapping (sample_header :: [[CNum 0; CNum 0; CNone; CNone; CStr "orphan"]]
                                   ++ skipn 1 sample_rows)
     = build_mapping (sample_header :: skipn 1 sample_rows).
Proof.
  assert (H1 : Forall five_cells [[CNum 0; CNum 0; CNone; CNone; CStr "orphan"]]).
  { constructor; [reflexivity|constructor]. }
  assert (H2 : Forall (fun r => row_station r = None)
                 [[CNum 0; CNum 0; CNone; CNone; CStr "orphan"]]).
  { constructor; [reflexivity|constructor]. }
  split; [exact H1|]. split; [exact H2|].
  exact (build_mapping_leading_rows_ignored sample_header _ _ H1 H2).
Defined.

Lemma build_mapping_clean_names_witness :
  build_mapping sample_rows = Some sample_mapping
  /\ Forall (fun '(k, l) => k <> EmptyString /\ strip k = k
                            /\ Forall (fun a => a <> EmptyString /\ strip a = a) l)
            sample_mapping.
Proof.
  assert (H : build_mapping sample_rows = Some sample_mapping) by reflexivity.
  split; [exact H|]. exact (build_mapping_clean_names sample_rows sample_mapping H).
Defined.

Lemma build_mapping_deterministic_witness :
  build_mapping_rel sample_rows (Some sample_mapping)
  /\ Some sample_mapping = build_mapping sample_rows.
Proof.
  assert (H : build_mapping_rel sample_rows (Some sample_mapping)).
  { exact (build_mapping_rel_complete sample_rows). }
  split; [exact H|].
  exact (proj1 (proj2 (build_mapping_deterministic sample_rows _ _ H H))).
Defined.

Definition recurring_row : row := [CNum 5; CNum 1; CNone; CStr "A PS "; CStr "V3"].

Definition recurring_post : list row :=
  [[CNum 6; CNum 1; CNone; CNone; CStr " v2"];
   [CNum 7; CNum 1; CNone; CNone; CStr "v3 "]].

Definition recurring_mapping : mapping_t :=
  [("A PS", ["Village1"; "V2"; "V3"]); ("B PS", [])].

Lemma build_mapping_recurring_station_witness :
  row_station recurring_row = Some "A PS"
  /\ In "A PS" (station_names (skipn 1 sample_rows))
  /\ build_mapping (sample_header :: skipn 1 sample_rows ++ recurring_row :: recurring_post)
     = Some recurring_mapping
  /\ exists l1 t,
       lookup "A PS" recurring_mapping = Some (l1 ++ t)
       /\ l1 = ["Village1"; "V2"] /\ t = ["V3"].
Proof.
  assert (H1 : row_station recurring_row = Some "A PS") by reflexivity.
  assert (H2 : In "A PS" (station_names (skipn 1 sample_rows))).
  { simpl. left. reflexivity. }
  assert (H3 : build_mapping (sample_header :: skipn 1 sample_rows ++ recurring_row :: recurring_post)
               = Some recurring_mapping) by reflexivity.
  split; [exact H1|]. split; [exact H2|]. split; [exact H3|].
  destruct (build_mapping_recurring_station _ _ _ _ _ _ H1 H2 H3)
    as (m1 & m2 & l1 & t & kt & E1 & _ & _ & _ & _ & El1 & El & Et & _).
  assert (E0 : build_mapping (sample_header :: skipn 1 sample_rows) = Some sample_mapping)
    by reflexivity.
  rewrite E0 in E1. injection E1 as <-.
  assert (Hl1 : l1 = ["Village1"; "V2"]).
  { change (lookup "A PS" sample_mapping) with (Some ["Village1"; "V2"]) in El1.
    injection El1 as <-. reflexivity. }
  exists l1, t. split; [exact El|]. split; [exact Hl1|].
  rewrite Et, Hl1. reflexivity.
Defined.

Lemma build_mapping_nontext_station_witness :
  (forall s, CNum 7 <> CStr s)
  /\ build_mapping (sample_header :: skipn 1 sample_rows
                    ++ [CNum 6; CNum 2; CNone; CNum 7; CStr "V3"] :: [])
     = build_mapping (sample_header :: skipn 1 sample_rows
                      ++ [CNum 6; CNum 2; CNone; CNone; CStr "V3"] :: [])
  /\ build_mapping (sample_header :: skipn 1 sample_rows
                    ++ [CNum 6; CNum 2; CNone; CNum 7; CStr "V3"] :: [])
     = Some [("A PS", ["Village1"; "V2"; "V3"]); ("B PS", [])].
Proof.
  assert (H : forall s, CNum 7 <> CStr s) by (intros s E; discriminate).
  split; [exact H|]. split; [|reflexivity].
  exact (proj1 (build_mapping_nontext_station sample_header (skipn 1 sample_rows) []
                  (CNum 6) (CNum 2) CNone (CNum 7) (CStr "V3") H)).
Defined.

(** * Further properties of the code *)

(** ** build_mapping *)

Lemma station_names_view rows rows' :
  Forall2 (fun r r' => row_station r = row_station r' /\ row_area r = row_area r')
    rows rows' ->
  station_names rows = station_names rows'.
Proof.
  intros H; induction H as [|r r' rows rows' [Hs _] _ IH]; simpl; [reflexivity|].
  rewrite Hs, IH. reflexivity.
Qed.

Lemma attributed_view c rows rows' :
  Forall2 (fun r r' => row_station r = row_station r' /\ row_area r = row_area r')
    rows rows' ->
  attributed c rows = attributed c rows'.
Proof.
  intros H; revert c; induction H as [|r r' rows rows' [Hs Ha] _ IH]; intros c;
    simpl; [reflexivity|].
  rewrite Hs, Ha. destruct (match row_station r' with Some k => Some k | None => c end),
    (row_area r'); rewrite IH; reflexivity.
Qed.

Lemma all_five_view rows rows' :
  Forall2 (fun r r' => five_cells r /\ five_cells r') rows rows' ->
  all_five rows = true /\ all_five rows' = true.
Proof.
  intros H; induction H as [|r r' rows rows' [H1 H2] _ [IH1 IH2]]; [split; reflexivity|].
  unfold all_five, five_cells in *. simpl. rewrite H1, H2. simpl. split; assumption.
Qed.

(** Extra: the result depends only on the trimmed, non-blank text of the
    station and area cells of each data row; the header row, the first
    three columns, the whitespace around names, and which kind of non-text
    or blank cell fills a column never matter. *)
Theorem build_mapping_depends_on_trimmed_text (h h' : row) (rows rows' : list row) :
  Forall2 (fun r r' => five_cells r /\ five_cells r'
                       /\ row_station r = row_station r' /\ row_area r = row_area r')
    rows rows' ->
  build_mapping (h :: rows) = build_mapping (h' :: rows').
Proof.
  intros H. rewrite !build_mapping_closed. simpl skipn.
  destruct (all_five_view rows rows') as [E1 E2].
  { eapply Forall2_impl; [|exact H]. simpl. tauto. }
  rewrite E1, E2.
  assert (Hv : Forall2 (fun r r' => row_station r = row_station r'
                                    /\ row_area r = row_area r') rows rows').
  { eapply Forall2_impl; [|exact H]. simpl. tauto. }
  unfold spec_mapping, spec_keys, spec_areas, areas_for.
  rewrite (station_names_view _ _ Hv), (attributed_view None _ _ Hv). reflexivity.
Qed.

Lemma first_occ_by_nil_iff f l : first_occ_by f [] l = [] <-> l = [].
Proof.
  destruct l as [|x l]; simpl; [tauto|]. split; discriminate.
Qed.

(** Extra: the Mapping is empty exactly when every data row has five cells
    and none carries a station name (in particular on an empty sheet or a
    sheet with only the header row). *)
Theorem build_mapping_empty_iff (data_rows : list row) :
  build_mapping data_rows = Some []
  <-> Forall five_cells (skipn 1 data_rows) /\ station_names (skipn 1 data_rows) = [].
Proof.
  rewrite build_mapping_closed, <- all_five_Forall.
  destruct (all_five (skipn 1 data_rows)).
  - unfold spec_mapping, spec_keys. split.
    + intros E. injection E as E. split; [reflexivity|].
      apply map_eq_nil in E. apply first_occ_by_nil_iff in E. exact E.
    + intros [_ E]. rewrite E. reflexivity.
  - split; [discriminate|intros [E _]; discriminate].
Qed.

(** Total number of stored areas. *)
Definition total_areas (m : mapping_t) : nat := list_sum (map (fun p => List.length (snd p)) m).

Definition count_area_rows (rows : list row) : nat :=
  List.length (filter (fun r => match row_area r with Some _ => true | None => false end) rows).

Lemma total_areas_app m1 m2 : total_areas (m1 ++ m2) = total_areas m1 + total_areas m2.
Proof. unfold total_areas. rewrite map_app, list_sum_app. reflexivity. Qed.

Lemma total_areas_setdefault k m : total_areas (setdefault k [] m) = total_areas m.
Proof.
  unfold setdefault. destruct (lookup k m); [reflexivity|].
  rewrite total_areas_app. simpl. unfold total_areas at 2. simpl. lia.
Qed.

Lemma total_areas_append_item k x m : total_areas (append_item k x m) <= S (total_areas m).
Proof.
  induction m as [|[k' v] m IH]; simpl; [lia|].
  unfold total_areas in *. simpl.
  destruct (String.eqb k k'); simpl; rewrite ?length_app; simpl; lia.
Qed.

Lemma length_setdefault k m : List.length (setdefault k [] m) <= S (List.length m).
Proof.
  unfold setdefault. destruct (lookup k m); [lia|]. rewrite length_app. simpl. lia.
Qed.

Lemma length_append_item k x m : List.length (append_item k x m) = List.length m.
Proof.
  induction m as [|[k' v] m IH]; simpl; [reflexivity|].
  destruct (String.eqb k k'); simpl; [reflexivity|]. rewrite IH. reflexivity.
Qed.

Lemma step_bounds st r st' :
  step st r = Some st' ->
  total_areas (mapping st') <= total_areas (mapping st) + count_area_rows [r]
  /\ List.length (mapping st') <= List.length (mapping st) + List.length (station_names [r]).
Proof.
  destruct r as [|x1 [|x2 [|x3 [|ps [|ar [|]]]]]]; try discriminate.
  remember (List.length (station_names [[x1; x2; x3; ps; ar]])) as ns eqn:Ens.
  remember (count_area_rows [[x1; x2; x3; ps; ar]]) as na eqn:Ena.
  cbn [step]. intros H.
  assert (Hu : total_areas (mapping (update_station st ps)) = total_areas (mapping st)
               /\ List.length (mapping (update_station st ps))
                  <= List.length (mapping st) + ns).
  { rewrite (update_station_mapping st x1 x2 x3 ps ar), Ens.
    change (station_names [[x1; x2; x3; ps; ar]])
      with (match row_station [x1; x2; x3; ps; ar] with
            | Some k => [k] | None => [] end).
    destruct (row_station [x1; x2; x3; ps; ar]); cbn [List.length].
    - split; [apply total_areas_setdefault|pose proof (length_setdefault s (mapping st)); lia].
    - split; [reflexivity|lia]. }
  assert (Hc : na = match row_area [x1; x2; x3; ps; ar] with Some _ => 1 | None => 0 end).
  { rewrite Ena. unfold count_area_rows. cbn [filter].
    destruct (row_area [x1; x2; x3; ps; ar]); reflexivity. }
  destruct (row_area [x1; x2; x3; ps; ar]) as [a|] eqn:Ea.
  - unfold record_area in H.
    destruct (negb (truthy_opt (current_ps (update_station st ps)))).
    { injection H as <-. lia. }
    destruct (current_ps (update_station st ps)) as [cur|].
    2:{ injection H as <-. lia. }
    destruct ar as [|a'| |]; try (injection H as <-; lia).
    destruct (negb (truthy_str (strip a'))); [injection H as <-; lia|].
    destruct (lookup cur _); [|discriminate].
    destruct (mem _ _); injection H as <-; [lia|]. cbn [mapping].
    rewrite length_append_item.
    pose proof (total_areas_append_item cur (strip a') (mapping (update_station st ps))).
    lia.
  - rewrite (record_area_no_area _ _ _ _ _ _ Ea) in H. injection H as <-.
    lia.
Qed.

Lemma loop_bounds st rows st' :
  loop st rows = Some st' ->
  total_areas (mapping st') <= total_areas (mapping st) + count_area_rows rows
  /\ List.length (mapping st') <= List.length (mapping st) + List.length (station_names rows).
Proof.
  revert st; induction rows as [|r rows IH]; intros st H; simpl in H.
  - injection H as <-. lia.
  - destruct (step st r) as [s|] eqn:E; [|discriminate].
    apply step_bounds in E. apply IH in H.
    change (r :: rows) with ([r] ++ rows).
    unfold count_area_rows in *. rewrite filter_app, length_app, station_names_app, length_app.
    lia.
Qed.

(** Extra: the Mapping has at most one key per data row carrying a station
    name, and at most one stored area per data row carrying a non-blank
    text area. *)
Theorem build_mapping_size_bounds (data_rows : list row) (m : mapping_t) :
  build_mapping data_rows = Some m ->
  List.length m <= List.length (station_names (skipn 1 data_rows))
  /\ total_areas m <= count_area_rows (skipn 1 data_rows).
Proof.
  unfold build_mapping, run_rows. destruct (loop init _) as [st|] eqn:E; [|discriminate].
  intros H; cbn [option_map] in H; injection H as <-. apply loop_bounds in E.
  change (total_areas (mapping init)) with 0 in E.
  change (List.length (mapping init)) with 0 in E. lia.
Qed.

(** Extra: nothing in the Mapping is invented: every key is the trimmed
    station text of some data row, and every area stored under a key is the
    trimmed area text of some data row attributed to that key. *)
Theorem build_mapping_provenance (data_rows : list row) (m : mapping_t) :
  build_mapping data_rows = Some m ->
  forall k l, In (k, l) m ->
    (exists r, In r (skipn 1 data_rows) /\ row_station r = Some k)
    /\ forall a, In a l ->
         In (k, a) (attributed None (skipn 1 data_rows))
         /\ exists r, In r (skipn 1 data_rows) /\ row_area r = Some a.
Proof.
  intros H. apply build_mapping_some in H as [_ ->].
  intros k l Hin. unfold spec_mapping in Hin.
  apply in_map_iff in Hin as (k' & E & Hk). injection E as <- <-. split.
  - apply spec_keys_In in Hk. clear -Hk.
    induction (skipn 1 data_rows) as [|r rows IH]; simpl in Hk; [contradiction|].
    destruct (row_station r) as [k0|] eqn:E.
    + destruct Hk as [<-|Hk]; [exists r; split; [left; reflexivity|exact E]|].
      destruct (IH Hk) as (r' & ? & ?). exists r'. split; [right|]; assumption.
    + destruct (IH Hk) as (r' & ? & ?). exists r'. split; [right|]; assumption.
  - intros a Ha. apply first_occ_by_incl in Ha. unfold areas_for in Ha.
    apply in_map_iff in Ha as ([k'' a'] & <- & Ha).
    apply filter_In in Ha as [Ha Heq]. simpl in Heq. apply String.eqb_eq in Heq. subst.
    split; [exact Ha|]. destruct (attributed_area _ _ _ _ Ha) as (r & Hr & Er).
    exists r. split; [|exact Er]. clear -Hr. exact Hr.
Qed.

(** ** Properties of the written files *)

Abbreviation chars := list_ascii_of_string.

Lemma json_char_read (c : ascii) (rest : list ascii) :
  read_chars (json_char c ++ rest) = cons_fst c (read_chars rest).
Proof.
  destruct c as [[] [] [] [] [] [] [] []]; reflexivity.
Qed.

Lemma json_char_squeeze (c : ascii) (rest : list ascii) :
  squeeze_in (json_char c ++ rest) = json_char c ++ squeeze_in rest.
Proof.
  destruct c as [[] [] [] [] [] [] [] []]; reflexivity.
Qed.

Lemma json_char_c0_free (c : ascii) :
  Forall (fun d => 32 <= nat_of_ascii d) (json_char c).
Proof.
  apply Forall_forall; intros d Hd.
  assert (H : forallb (fun d => Nat.leb 32 (nat_of_ascii d)) (json_char c) = true)
    by (destruct c as [[] [] [] [] [] [] [] []]; reflexivity).
  rewrite forallb_forall in H; apply Nat.leb_le, H, Hd.
Qed.

Lemma chars_app (s1 s2 : string) : chars (s1 ++ s2)%string = chars s1 ++ chars s2.
Proof. induction s1 as [|c s1 IH]; simpl; [reflexivity | now rewrite IH]. Qed.

Lemma chars_json_string (s : string) :
  chars (json_string s) = quote_char :: flat_map json_char (chars s) ++ [quote_char].
Proof. unfold json_string; now rewrite list_ascii_of_string_of_list_ascii. Qed.

Lemma read_chars_encoded (cs rest : list ascii) :
  read_chars (flat_map json_char cs ++ quote_char :: rest) = Some (cs, rest).
Proof.
  induction cs as [|c cs IH]; [reflexivity|].
  cbn [flat_map]; rewrite <- app_assoc, json_char_read, IH; reflexivity.
Qed.

Lemma read_string_json (s : string) (rest : list ascii) :
  read_string (chars (json_string s) ++ rest) = Some (s, rest).
Proof.
  rewrite chars_json_string; cbn [app]; rewrite <- app_assoc; cbn [app].
  unfold read_string, expect; rewrite Ascii.eqb_refl, read_chars_encoded; cbn.
  now rewrite string_of_list_ascii_of_string.
Qed.

Lemma join_json_head (l : list string) :
  l <> [] -> exists X, chars (join "," (map json_string l)) = quote_char :: X.
Proof.
  intros Hl; destruct l as [|x [|y l]]; [congruence| |].
  - cbn [map join]; rewrite chars_json_string; eexists; reflexivity.
  - cbn [map join]; rewrite chars_app, chars_json_string; eexists; reflexivity.
Qed.

Lemma read_items_json (fuel : nat) (l : list string) (rest : list ascii) :
  l <> [] -> length l <= fuel ->
  read_items fuel (chars (join "," (map json_string l)) ++ "]"%char :: rest) = Some (l, rest).
Proof.
  revert fuel; induction l as [|x l IH]; intros fuel Hl Hf; [congruence|].
  destruct fuel as [|fuel]; [simpl in Hf; lia|].
  destruct l as [|y l].
  - cbn [map join]; cbn [read_items]; rewrite read_string_json; reflexivity.
  - cbn [map join] in *; rewrite !chars_app, <- !app_assoc; cbn [read_items].
    rewrite read_string_json; cbn [chars app].
    rewrite Ascii.eqb_refl, IH; [reflexivity | discriminate | simpl in *; lia].
Qed.

Lemma read_list_json (fuel : nat) (v : list string) (rest : list ascii) :
  length v <= fuel -> read_list fuel (chars (json_list v) ++ rest) = Some (v, rest).
Proof.
  intros Hf; unfold json_list; rewrite !chars_app, <- !app_assoc.
  destruct v as [|x v]; [reflexivity|].
  destruct (join_json_head (x :: v)) as [X HX]; [discriminate|].
  unfold read_list; cbn [chars app expect]; rewrite HX; cbn [app].
  replace (Ascii.eqb "["%char "["%char) with true by reflexivity.
  replace (Ascii.eqb quote_char "]"%char) with false by reflexivity.
  rewrite (app_comm_cons X _ quote_char), <- HX; apply read_items_json; [discriminate | exact Hf].
Qed.

Lemma json_mapping_entries (m : mapping_t) :
  json_mapping m = ("{" ++ join "," (map json_entry m) ++ "}")%string.
Proof. unfold json_mapping; do 3 f_equal; apply map_ext; now intros []. Qed.

Lemma join_entry_head (m : mapping_t) :
  m <> [] -> exists X, chars (join "," (map json_entry m)) = quote_char :: X.
Proof.
  intros Hm; destruct m as [|[k v] [|e m]]; [congruence| |].
  - cbn [map join json_entry]; rewrite chars_app, chars_json_string; eexists; reflexivity.
  - cbn [map join json_entry]; rewrite !chars_app, chars_json_string; eexists; reflexivity.
Qed.

Lemma read_entries_json (lfuel fuel : nat) (m : mapping_t) (rest : list ascii) :
  m <> [] -> length m <= fuel -> Forall (fun e => length (snd e) <= lfuel) m ->
  read_entries lfuel fuel (chars (join "," (map json_entry m)) ++ "}"%char :: rest) = Some (m, rest).
Proof.
  revert fuel; induction m as [|[k v] m IH]; intros fuel Hm Hf Hl; [congruence|].
  destruct fuel as [|fuel]; [simpl in Hf; lia|].
  inversion Hl as [|? ? Hv Hl']; subst; cbn [snd] in Hv.
  destruct m as [|e m].
  - cbn [map join json_entry]; rewrite !chars_app, <- !app_assoc; cbn [read_entries].
    rewrite read_string_json; cbn [chars app expect].
    replace (Ascii.eqb ":"%char ":"%char) with true by reflexivity.
    rewrite read_list_json by exact Hv; reflexivity.
  - cbn [map join json_entry] in *; rewrite !chars_app, <- !app_assoc; cbn [read_entries].
    rewrite read_string_json; cbn [chars app expect].
    replace (Ascii.eqb ":"%char ":"%char) with true by reflexivity.
    rewrite read_list_json by exact Hv; cbn [chars app].
    rewrite Ascii.eqb_refl, IH; [reflexivity | discriminate | simpl in *; lia | exact Hl'].
Qed.

Lemma read_object_json (fuel : nat) (m : mapping_t) (rest : list ascii) :
  length m <= fuel -> Forall (fun e => length (snd e) <= fuel) m ->
  read_object fuel (chars (json_mapping m) ++ rest) = Some (m, rest).
Proof.
  intros Hf Hl; rewrite json_mapping_entries, !chars_app, <- !app_assoc.
  destruct m as [|e m]; [reflexivity|].
  destruct (join_entry_head (e :: m)) as [X HX]; [discriminate|].
  unfold read_object; cbn [chars app expect]; rewrite HX; cbn [app].
  replace (Ascii.eqb "{"%char "{"%char) with true by reflexivity.
  replace (Ascii.eqb quote_char "}"%char) with false by reflexivity.
  rewrite (app_comm_cons X _ quote_char), <- HX; apply read_entries_json; [discriminate | exact Hf | exact Hl].
Qed.

Lemma strip_prefix_app (p l : list ascii) : strip_prefix p (p ++ l) = Some l.
Proof. induction p as [|x p IH]; [reflexivity|]; cbn; now rewrite Ascii.eqb_refl. Qed.

Lemma length_join_ge (sep : string) (xs : list string) :
  (forall x, In x xs -> 1 <= length (chars x)) -> length xs <= length (chars (join sep xs)).
Proof.
  induction xs as [|x [|y xs] IH]; intros H; [simpl; lia| |].
  - cbn [join]; specialize (H x (or_introl eq_refl)); simpl; lia.
  - change (join sep (x :: y :: xs)) with (x ++ sep ++ join sep (y :: xs))%string.
    rewrite !chars_app, !length_app.
    assert (1 <= length (chars x)) by (apply H; left; reflexivity).
    assert (length (y :: xs) <= length (chars (join sep (y :: xs))))
      by (apply IH; intros z Hz; apply H; right; exact Hz).
    simpl in *; lia.
Qed.

Lemma length_join_mem (sep : string) (xs : list string) (x : string) :
  In x xs -> length (chars x) <= length (chars (join sep xs)).
Proof.
  induction xs as [|y [|z xs] IH]; intros Hin; [destruct Hin| |].
  - destruct Hin as [->|[]]; cbn [join]; lia.
  - change (join sep (y :: z :: xs)) with (y ++ sep ++ join sep (z :: xs))%string.
    rewrite !chars_app, !length_app.
    destruct Hin as [->|Hin]; [lia|].
    specialize (IH Hin); lia.
Qed.

Lemma length_json_string (s : string) : 2 <= length (chars (json_string s)).
Proof. rewrite chars_json_string; simpl; rewrite length_app; simpl; lia. Qed.

Lemma json_mapping_fuel (m : mapping_t) :
  length m <= length (chars (json_mapping m)) /\
  Forall (fun e => length (snd e) <= length (chars (json_mapping m))) m.
Proof.
  rewrite json_mapping_entries, !chars_app, !length_app; split.
  - rewrite <- (length_map json_entry m).
    assert (length (map json_entry m) <= length (chars (join "," (map json_entry m)))); [|lia].
    apply length_join_ge; intros x Hx; apply in_map_iff in Hx as [[k v] [<- _]].
    cbn [json_entry]; rewrite chars_app, length_app; pose proof (length_json_string k); lia.
  - apply Forall_forall; intros [k v] Hin; cbn [snd].
    assert (Hm : length (chars (json_entry (k, v))) <= length (chars (join "," (map json_entry m))))
      by (apply length_join_mem, in_map, Hin).
    cbn [json_entry] in Hm; rewrite !chars_app, !length_app in Hm.
    unfold json_list in Hm; rewrite !chars_app, !length_app in Hm.
    assert (length v <= length (chars (join "," (map json_string v)))).
    { rewrite <- (length_map json_string v) at 1; apply length_join_ge.
      intros x Hx; apply in_map_iff in Hx as [s [<- _]]; pose proof (length_json_string s); lia. }
    lia.
Qed.

(** Extra: the text [write_mapping_js] writes reads back, by a strict JSON
    reader, to exactly the mapping it was given, for every mapping and
    every character in its keys and areas; so two different mappings never
    give the same [mapping.js]. *)
Theorem write_mapping_js_parse (m : mapping_t) :
  parse_mapping_js (write_mapping_js m) = Some m.
Proof.
  unfold parse_mapping_js, write_mapping_js.
  rewrite !chars_app, strip_prefix_app.
  destruct (json_mapping_fuel m) as [Hf Hl].
  set (n := length _).
  assert (Hn : length (chars (json_mapping m)) <= n).
  { subst n; rewrite !length_app; lia. }
  rewrite read_object_json.
  - destruct (list_eq_dec ascii_dec _ _) as [_|E]; [reflexivity|].
    exfalso; apply E; reflexivity.
  - lia.
  - eapply Forall_impl; [|exact Hl]; intros e He; cbn beta in He; lia.
Qed.

Lemma squeeze_in_encoded (cs rest : list ascii) :
  squeeze_in (flat_map json_char cs ++ quote_char :: rest)
  = flat_map json_char cs ++ quote_char :: squeeze_out rest.
Proof.
  induction cs as [|c cs IH]; [reflexivity|].
  cbn [flat_map]; rewrite <- !app_assoc, json_char_squeeze, IH; reflexivity.
Qed.

Lemma squeeze_json_string (s : string) (rest : list ascii) :
  squeeze_out (chars (json_string s) ++ rest) = chars (json_string s) ++ squeeze_out rest.
Proof.
  rewrite chars_json_string; cbn [app]; rewrite <- !app_assoc; cbn [app].
  cbn [squeeze_out]; replace (json_ws quote_char) with false by reflexivity.
  rewrite Ascii.eqb_refl, squeeze_in_encoded; reflexivity.
Qed.

Lemma squeeze_ws (w rest : list ascii) :
  forallb json_ws w = true -> squeeze_out (w ++ rest) = squeeze_out rest.
Proof.
  induction w as [|c w IH]; intros H; [reflexivity|].
  apply andb_prop in H as [Hc Hw]; cbn [app squeeze_out]; rewrite Hc; apply IH, Hw.
Qed.

Lemma indent_ws (n : nat) : forallb json_ws (chars (indent n)) = true.
Proof. induction n as [|n IH]; [reflexivity|]; exact IH. Qed.

Ltac skip_ws :=
  repeat first [ rewrite (squeeze_ws (chars newline)) by reflexivity
               | rewrite (squeeze_ws (chars (indent _))) by apply indent_ws ].

Lemma squeeze_char (c : ascii) (rest : list ascii) :
  json_ws c = false -> Ascii.eqb c quote_char = false ->
  squeeze_out (c :: rest) = c :: squeeze_out rest.
Proof. intros H1 H2; cbn [squeeze_out]; now rewrite H1, H2. Qed.

Lemma squeeze_skip (c : ascii) (rest : list ascii) :
  json_ws c = true -> squeeze_out (c :: rest) = squeeze_out rest.
Proof. intros H; cbn [squeeze_out]; now rewrite H. Qed.

Lemma squeeze_join {A : Type} (f g : A -> string) (n : nat) (xs : list A) (rest : list ascii) :
  (forall x r, squeeze_out (chars (f x) ++ r) = chars (g x) ++ squeeze_out r) ->
  squeeze_out (chars (join ("," ++ newline ++ indent n) (map f xs)) ++ rest)
  = chars (join "," (map g xs)) ++ squeeze_out rest.
Proof.
  intros Hfg; induction xs as [|x [|y xs] IH]; [reflexivity| |].
  - cbn [map join]; apply Hfg.
  - cbn [map join] in *; rewrite !chars_app, <- !app_assoc, Hfg.
    cbn [chars app]; rewrite squeeze_char by reflexivity.
    skip_ws; rewrite IH; reflexivity.
Qed.

Lemma squeeze_pretty_list (level : nat) (v : list string) (rest : list ascii) :
  squeeze_out (chars (json_pretty_list level v) ++ rest) = chars (json_list v) ++ squeeze_out rest.
Proof.
  destruct v as [|x v]; [reflexivity|].
  unfold json_pretty_list, json_list.
  rewrite !chars_app, <- !app_assoc.
  cbn [chars app]; rewrite squeeze_char by reflexivity.
  skip_ws; rewrite (squeeze_join json_string json_string) by apply squeeze_json_string.
  skip_ws; cbn [chars app]; rewrite squeeze_char by reflexivity.
  reflexivity.
Qed.

(** Extra: [mapping.json] (the indented text of [write_json]) and the JSON
    text of [mapping.js] differ only by whitespace outside string literals:
    dropping that whitespace from the former gives the latter. *)
Theorem write_json_squeezed (m : mapping_t) :
  squeeze_out (chars (write_json m)) = chars (json_mapping m).
Proof.
  rewrite json_mapping_entries.
  destruct m as [|e m]; [reflexivity|].
  unfold write_json; rewrite <- (app_nil_r (chars (json_pretty _))).
  unfold json_pretty; rewrite !chars_app, <- !app_assoc.
  cbn [chars app]; rewrite squeeze_char by reflexivity.
  skip_ws; rewrite (squeeze_join _ json_entry).
  - skip_ws; reflexivity.
  - intros [k v] r; cbn [json_entry].
    rewrite !chars_app, <- !app_assoc, squeeze_json_string.
    cbn [chars app]; rewrite squeeze_char by reflexivity.
    rewrite squeeze_skip by reflexivity.
    rewrite squeeze_pretty_list; reflexivity.
Qed.

Lemma c0_free_app (l1 l2 : list ascii) : c0_free l1 -> c0_free l2 -> c0_free (l1 ++ l2).
Proof. intros; apply Forall_app; split; assumption. Qed.

Lemma c0_free_literal (s : string) :
  forallb (fun c => Nat.leb 32 (nat_of_ascii c)) (chars s) = true -> c0_free (chars s).
Proof.
  intros H; apply Forall_forall; intros c Hc; rewrite forallb_forall in H.
  apply Nat.leb_le, H, Hc.
Qed.

Lemma c0_free_json_string (s : string) : c0_free (chars (json_string s)).
Proof.
  rewrite chars_json_string; constructor; [cbn; lia|].
  apply c0_free_app; [|constructor; [cbn; lia | constructor]].
  induction (chars s) as [|c cs IH]; [constructor|].
  cbn [flat_map]; apply c0_free_app; [apply json_char_c0_free | exact IH].
Qed.

Lemma c0_free_join (sep : string) (xs : list string) :
  c0_free (chars sep) -> Forall (fun x => c0_free (chars x)) xs -> c0_free (chars (join sep xs)).
Proof.
  intros Hs; induction xs as [|x [|y xs] IH]; intros H; [constructor| |].
  - inversion H; assumption.
  - inversion H as [|? ? Hx Hr]; subst.
    change (join sep (x :: y :: xs)) with (x ++ sep ++ join sep (y :: xs))%string.
    rewrite !chars_app; apply c0_free_app; [exact Hx|]; apply c0_free_app; [exact Hs | apply IH, Hr].
Qed.

Lemma c0_free_json_mapping (m : mapping_t) : c0_free (chars (json_mapping m)).
Proof.
  rewrite json_mapping_entries, !chars_app.
  apply c0_free_app; [apply c0_free_literal; reflexivity|].
  apply c0_free_app; [|apply c0_free_literal; reflexivity].
  apply c0_free_join; [apply c0_free_literal; reflexivity|].
  apply Forall_forall; intros x Hx; apply in_map_iff in Hx as [[k v] [<- _]].
  cbn [json_entry]; rewrite !chars_app.
  apply c0_free_app; [apply c0_free_json_string|].
  apply c0_free_app; [apply c0_free_literal; reflexivity|].
  unfold json_list; rewrite !chars_app.
  apply c0_free_app; [apply c0_free_literal; reflexivity|].
  apply c0_free_app; [|apply c0_free_literal; reflexivity].
  apply c0_free_join; [apply c0_free_literal; reflexivity|].
  apply Forall_forall; intros y Hy; apply in_map_iff in Hy as [s [<- _]].
  apply c0_free_json_string.
Qed.

(** Extra: the text of [mapping.js] has no character below code point 32
    other than its final newline, whatever keys and areas contain: newlines,
    tabs and the other C0 control characters in them are written as escapes.
    (DEL and the characters from 128 up are written as they are.) *)
Theorem write_mapping_js_no_c0_controls (m : mapping_t) :
  exists body, chars (write_mapping_js m) = body ++ [ascii_of_nat 10] /\ c0_free body.
Proof.
  exists (chars "const policeStationAreas = " ++ chars (json_mapping m) ++ [";"%char]); split.
  - unfold write_mapping_js; rewrite !chars_app, <- !app_assoc; reflexivity.
  - apply c0_free_app; [apply c0_free_literal; reflexivity|].
    apply c0_free_app; [apply c0_free_json_mapping | constructor; [cbn; lia | constructor]].
Qed.

Lemma all_five_false (rows : list row) :
  all_five rows = false -> Exists (fun r => ~ five_cells r) rows.
Proof.
  unfold all_five, five_cells; induction rows as [|r rows IH]; cbn [forallb]; [discriminate|].
  destruct (Nat.eqb (List.length r) 5) eqn:E; cbn [andb]; intros H.
  - right; apply IH, H.
  - left; apply Nat.eqb_neq, E.
Qed.

(** Extra: the script stops with an error before attempting any write or
    print exactly when the workbook cannot be read or some data row after
    the header does not have five cells; every other failure (a write or
    the print) comes after [build_mapping] has succeeded. *)
Theorem main_io_stops_before_output (e : env) :
  main_io e = ([], false)
  <-> workbook e = None
      \/ exists data_rows, workbook e = Some data_rows
                           /\ Exists (fun r => ~ five_cells r) (skipn 1 data_rows).
Proof.
  unfold main_io. destruct (workbook e) as [data_rows|].
  2: { split; [intros _; left; reflexivity | reflexivity]. }
  rewrite build_mapping_closed.
  destruct (all_five (skipn 1 data_rows)) eqn:E.
  - split.
    + destruct (write_ok e "mapping.json"), (write_ok e "mapping.js"), (print_ok e);
        discriminate.
    + intros [H|(rows & Hr & Hx)]; [discriminate|].
      injection Hr as <-. apply all_five_Forall in E.
      apply Exists_exists in Hx as [r [Hin Hn]].
      exfalso. apply Hn. rewrite Forall_forall in E. exact (E r Hin).
  - split; [intros _|reflexivity].
    right. exists data_rows. split; [reflexivity|]. apply all_five_false, E.
Qed.

(** Extra: in a run where the workbook is read and the writes and the print
    succeed ([main]), when every data row has five cells, the script writes
    [mapping.json], then [mapping.js], then prints the text of
    [mapping.json] with a newline; [mapping.js] reads back to the mapping of
    first occurrences, and after its fixed prefix it holds the text of
    [mapping.json] without whitespace, then ";" and a newline. *)
Theorem main_outputs (data_rows : list row) :
  Forall five_cells (skipn 1 data_rows) ->
  exists json js,
    main data_rows
      = ([WriteFile "mapping.json" json; WriteFile "mapping.js" js;
          PrintOut (json ++ newline)%string], true) /\
    parse_mapping_js js = Some (spec_mapping (skipn 1 data_rows)) /\
    strip_prefix (chars "const policeStationAreas = ") (chars js)
      = Some (squeeze_out (chars json) ++ [";"%char; ascii_of_nat 10]).
Proof.
  intros H; apply all_five_Forall in H.
  set (m := spec_mapping (skipn 1 data_rows)).
  exists (write_json m), (write_mapping_js m); split; [|split].
  - unfold main, main_io; cbn [workbook write_ok print_ok].
    rewrite build_mapping_closed, H; reflexivity.
  - apply write_mapping_js_parse.
  - rewrite write_json_squeezed; unfold write_mapping_js; rewrite !chars_app, strip_prefix_app.
    reflexivity.
Qed.

(** ** Instances of the further properties *)

Lemma build_mapping_depends_on_trimmed_text_witness :
  build_mapping sample_rows
  = build_mapping
      [[CNone];
       [CNum 9; CNone; CNone; CStr "A PS"; CStr " Village1 "];
       [CStr "x"; CNone; COther; CStr "  "; CStr "village1"];
       [CNone; CNone; CNone; CStr "B PS  "; CStr "   "];
       [COther; COther; COther; CStr "A PS"; CStr "V2 "]].
Proof.
  apply build_mapping_depends_on_trimmed_text.
  repeat constructor.
Defined.

Lemma build_mapping_size_bounds_witness :
  build_mapping sample_rows = Some sample_mapping
  /\ List.length sample_mapping <= List.length (station_names (skipn 1 sample_rows))
  /\ total_areas sample_mapping <= count_area_rows (skipn 1 sample_rows).
Proof.
  assert (H : build_mapping sample_rows = Some sample_mapping) by reflexivity.
  split; [exact H|].
  exact (build_mapping_size_bounds sample_rows sample_mapping H).
Defined.

Lemma build_mapping_provenance_witness :
  build_mapping sample_rows = Some sample_mapping
  /\ In ("A PS", "V2") (attributed None (skipn 1 sample_rows)).
Proof.
  assert (H : build_mapping sample_rows = Some sample_mapping) by reflexivity.
  split; [exact H|].
  refine (proj1 (proj2 (build_mapping_provenance sample_rows sample_mapping H
                          "A PS" ["Village1"; "V2"] _) "V2" _)).
  - left; reflexivity.
  - right; left; reflexivity.
Defined.

Lemma main_outputs_witness :
  Forall five_cells (skipn 1 sample_rows)
  /\ exists json js,
       main sample_rows
         = ([WriteFile "mapping.json" json; WriteFile "mapping.js" js;
             PrintOut (json ++ newline)%string], true)
       /\ parse_mapping_js js = Some sample_mapping.
Proof.
  assert (HF : Forall five_cells (skipn 1 sample_rows)) by (repeat constructor).
  split; [exact HF|].
  destruct (main_outputs sample_rows HF) as (json & js & H1 & H2 & _).
  exists json, js; split; [exact H1|].
  rewrite H2; reflexivity.
Defined.
